(** * Asset pricing via simulation: the Monte Carlo estimator

    A shallow embedding of the two jitted kernels of
    [day3/applications/asset_pricing/asset_pricing_simulation.ipynb]:

    - [simulate_forward_sum_ave]: for [m] in [range(M)] reseed the generator
      with [m], simulate one path of length [N], accumulate the forward sum
      of cumulative products, and return the mean of the [M] statistics;
    - [compute_prices_across_states]: a [prange] loop that stores
      [simulate_forward_sum_ave(x_vals[i])] in slot [i] of a fresh array.

    The kernels are written here against two interfaces that the notebook
    imports rather than defines: the float64 arithmetic with [np.exp]
    ([Platform]) and the generator behind [np.random.seed] and [randn]
    ([Generator]).  Instances: IEEE binary64 ([SpecFloat]) and the reals.

    Part I holds the definitions, Part II the lemmas about the loops, and
    Part III the properties of the estimator. *)

From Stdlib Require Import ZArith List Lia.
From Stdlib Require Import Reals Lra.
From Stdlib.Floats Require Import SpecFloat.
From stdpp Require Import base tactics list.

(** * Part I: definitions *)

(** ** Outcomes of a kernel call *)

(** The exceptions a kernel can leave with. *)
Inductive exn : Type :=
  | ValueError          (* np.empty: negative dimensions not allowed *)
  | IndexError          (* an array index outside 0..len-1 *)
  | ZeroDivisionError.  (* a division by an integer zero *)

Inductive result (A : Type) : Type :=
  | Ok (a : A)
  | Raise (e : exn).
Arguments Ok {A} a.
Arguments Raise {A} e.

(** ** The numerical platform *)

(** float64 arithmetic as the kernels use it.  [uninit n] is the content of a
    freshly allocated, uninitialised array of [n] cells ([np.empty]);
    [mean_of_empty] is what [ndarray.mean] yields on a zero-length array (it
    divides the running sum by [a.size], and the outcome of that division
    depends on the error model the kernel was compiled with). *)
Class Platform : Type := {
  float : Type;
  fadd : float -> float -> float;
  fsub : float -> float -> float;
  fmul : float -> float -> float;
  fdiv : float -> float -> float;
  fneg : float -> float;
  np_exp : float -> float;
  float_of_int : Z -> float;
  uninit : nat -> list float;
  uninit_length : forall n, length (uninit n) = n;
  mean_of_empty : result float;
}.

Declare Scope fl_scope.
Delimit Scope fl_scope with fl.
Bind Scope fl_scope with float.
Notation "x + y" := (fadd x y) : fl_scope.
Notation "x - y" := (fsub x y) : fl_scope.
Notation "x * y" := (fmul x y) : fl_scope.
Notation "x / y" := (fdiv x y) : fl_scope.
Notation "- x" := (fneg x) : fl_scope.

(** The generator behind [np.random.seed] and [randn].  Seeding installs a
    state that depends on the seed alone; a draw returns a variate and the
    advanced state. *)
Class Generator (F : Type) : Type := {
  rng : Type;
  seed_state : Z -> rng;
  draw : rng -> F * rng;
}.

(** ** A state and exception monad *)

Section Monad.
Context {S : Type}.

Definition SE (A : Type) : Type := S -> result (A * S).

Definition ret {A} (a : A) : SE A := fun s => Ok (a, s).

Definition bind {A B} (c : SE A) (k : A -> SE B) : SE B :=
  fun s => match c s with
           | Ok (a, s') => k a s'
           | Raise e => Raise e
           end.

Definition lift {A} (r : result A) : SE A :=
  fun s => match r with
           | Ok a => Ok (a, s)
           | Raise e => Raise e
           end.

(** [for i in l: s = body(i, s)] *)
Fixpoint for_each {I St} (l : list I) (body : I -> St -> SE St) (s : St) : SE St :=
  match l with
  | [] => ret s
  | i :: l' => bind (body i s) (for_each l' body)
  end.
End Monad.
Arguments SE : clear implicits.

Declare Scope se_scope.
Delimit Scope se_scope with se.
Notation "x <- c ;; k" := (bind c (fun x => k))
  (at level 100, c at next level, right associativity) : se_scope.
Notation "c ;; k" := (bind c (fun _ => k))
  (at level 100, right associativity) : se_scope.

(** [range(n)]: empty when [n <= 0]. *)
Definition range (n : Z) : list nat := seq 0 (Z.to_nat n).

(** ** The kernels *)

Section Kernels.
Context {P : Platform} {G : Generator float}.
Local Open Scope se_scope.

(** Decimal literals: [dec m d] is the float64 nearest to [m/d] (both are
    exactly representable integers, and the division rounds correctly). *)
Definition dec (m d : Z) : float := (float_of_int m / float_of_int d)%fl.

(** *** Arrays *)

(** [np.empty(n)] *)
Definition np_empty (n : Z) : result (list float) :=
  if (n <? 0)%Z then Raise ValueError else Ok (uninit (Z.to_nat n)).

(** [a[i]] *)
Definition aget (a : list float) (i : nat) : result float :=
  match a !! i with
  | Some v => Ok v
  | None => Raise IndexError
  end.

(** [a[i] = v] *)
Definition aset (a : list float) (i : nat) (v : float) : result (list float) :=
  if decide (i < length a) then Ok (<[i := v]> a) else Raise IndexError.

(** [a.mean()]: [c = 0; for v in a: c += v; return c / a.size] *)
Definition fsum (a : list float) : float :=
  fold_left fadd a (float_of_int 0).

Definition mean (a : list float) : result float :=
  match a with
  | [] => mean_of_empty
  | _ :: _ => Ok (fsum a / float_of_int (Z.of_nat (length a)))%fl
  end.

(** *** The generator *)

(** [np.random.seed(m)] *)
Definition np_random_seed (m : Z) : SE rng unit :=
  fun _ => Ok (tt, seed_state m).

(** [randn()] *)
Definition randn : SE rng float := fun g => Ok (draw g).

(** *** Keyword arguments of [simulate_forward_sum_ave] *)

Record Params : Type := {
  β : float; γ : float; ρ : float; σ : float;
  μ_d : float; σ_d : float; μ_c : float; σ_c : float;
  N : Z; M : Z;
}.

(** The default values of the signature. *)
Definition defaults : Params := {|
  β := dec 96 100; γ := float_of_int 2; ρ := dec 9 10; σ := dec 5 100;
  μ_d := dec 1 100; σ_d := dec 1 100; μ_c := dec 5 100; σ_c := dec 1 100;
  N := 1000; M := 20000;
|}.

(** *** One path *)

(** Body of [for t in range(N)]: the state is [(A_path, x)]. *)
Definition draw_step (p : Params) (t : nat) (s : list float * float)
  : SE rng (list float * float) :=
  let '(A_path, x) := s in
  η_c <- randn ;;
  η_d <- randn ;;
  let t1 := (- γ p * μ_c p + μ_d p + (float_of_int 1 - γ p) * x)%fl in
  let t2 := (- γ p * σ_c p * η_c + σ_d p * η_d)%fl in
  A_path <- lift (aset A_path t (β p * np_exp (t1 + t2))%fl) ;;
  ξ <- randn ;;
  ret (A_path, (ρ p * x + σ p * ξ)%fl).

(** Body of [for n in range(N)]: the state is [(A_prod, Λ)]. *)
Definition forward_step (A_path : list float) (n : nat) (s : float * float)
  : SE rng (float * float) :=
  let '(A_prod, Λ) := s in
  a <- lift (aget A_path n) ;;
  let A_prod := (A_prod * a)%fl in
  ret (A_prod, (Λ + A_prod)%fl).

(** The path corresponding to [m]: everything inside [for m in range(M)]
    up to, and without, the store into [Λ_vals]. *)
Definition simulate_path (x0 : float) (p : Params) (m : nat) : SE rng float :=
  np_random_seed (Z.of_nat m) ;;
  A_path <- lift (np_empty (N p)) ;;
  s <- for_each (range (N p)) (draw_step p) (A_path, x0) ;;
  let A_path := fst s in
  s <- for_each (range (N p)) (forward_step A_path)
         (float_of_int 1, float_of_int 0) ;;
  ret (snd s).

(** Body of [for m in range(M)]: the state is [Λ_vals]. *)
Definition record_path (x0 : float) (p : Params) (m : nat)
    (Λ_vals : list float) : SE rng (list float) :=
  Λ <- simulate_path x0 p m ;;
  lift (aset Λ_vals m Λ).

Definition simulate_forward_sum_ave (x0 : float) (p : Params) : SE rng float :=
  Λ_vals <- lift (np_empty (M p)) ;;
  Λ_vals <- for_each (range (M p)) (record_path x0 p) Λ_vals ;;
  lift (mean Λ_vals).

(** *** The grid *)

(** The iterations of [prange(n)] are shared out among worker threads.  The
    generator that [np.random.seed] and [randn] act on inside a jitted
    kernel is kept per thread, so each worker owns one; an iteration reads
    [x_vals], which no one writes, and writes its own slot of [v_vals].  An
    execution is therefore given by the iterations in their order of
    completion, each with the worker that ran it. *)
Definition Workers : Type := nat -> rng.

Definition set_worker (w : nat) (g : rng) (gens : Workers) : Workers :=
  fun w' => if decide (w' = w) then g else gens w'.

(** Run a kernel on worker [w], against that worker's generator. *)
Definition on_worker {A} (w : nat) (c : SE rng A) : SE Workers A :=
  fun gens => match c (gens w) with
              | Ok (a, g') => Ok (a, set_worker w g' gens)
              | Raise e => Raise e
              end.

(** Body of [for i in prange(n)], run by worker [w]. *)
Definition price_state (x_vals : list float) (wi : nat * nat)
    (v_vals : list float) : SE Workers (list float) :=
  let '(w, i) := wi in
  x <- lift (aget x_vals i) ;;
  v <- on_worker w (simulate_forward_sum_ave x defaults) ;;
  lift (aset v_vals i v).

(** [sched] lists the iterations of the parallel loop in the order in which
    they complete, each with the worker that ran it. *)
Definition compute_prices_across_states (sched : list (nat * nat))
    (x_vals : list float) : SE Workers (list float) :=
  let n := length x_vals in
  v_vals <- lift (np_empty (Z.of_nat n)) ;;
  for_each sched (price_state x_vals) v_vals.

(** A schedule of [prange(n)] runs every index of [range(n)] exactly once. *)
Definition schedule_of (n : nat) (sched : list (nat * nat)) : Prop :=
  Permutation (map snd sched) (seq 0 n).
End Kernels.

(** ** What the loops compute *)

Section LoopFunctions.
Context {P : Platform} {G : Generator float}.

(** The generator after [k] draws, and the [k]-th variate (from 0) that a
    generator in state [g] hands out. *)
Fixpoint advance (k : nat) (g : rng) : rng :=
  match k with
  | O => g
  | S k' => advance k' (snd (draw g))
  end.

Definition variate (g : rng) (k : nat) : float := fst (draw (advance k g)).

(** The factor that one iteration of the [t] loop stores, given the state
    [x] it starts from and the two shocks it draws first. *)
Definition factor (p : Params) (x η_c η_d : float) : float :=
  (β p * np_exp ((- γ p * μ_c p + μ_d p + (float_of_int 1 - γ p) * x)
                 + (- γ p * σ_c p * η_c + σ_d p * η_d)))%fl.

(** The state after one iteration, given the third shock. *)
Definition next_state (p : Params) (x ξ : float) : float :=
  (ρ p * x + σ p * ξ)%fl.

(** [n] iterations of the [t] loop from state [x] and generator [g]: the
    factors stored, in order, and the final state. *)
Fixpoint factors (p : Params) (n : nat) (x : float) (g : rng) : list float * float :=
  match n with
  | O => ([], x)
  | S n' =>
      let a := factor p x (variate g 0) (variate g 1) in
      let r := factors p n' (next_state p x (variate g 2)) (advance 3 g) in
      (a :: fst r, snd r)
  end.

(** The [n] loop over an array [A]: the pair [(A_prod, Λ)]. *)
Definition forward (A : list float) (s : float * float) : float * float :=
  fold_left (fun s a => let A_prod := (fst s * a)%fl in
                        (A_prod, (snd s + A_prod)%fl)) A s.

(** The statistic of the path of seed [m]. *)
Definition path_statistic (x0 : float) (p : Params) (m : nat) : float :=
  snd (forward (fst (factors p (Z.to_nat (N p)) x0 (seed_state (Z.of_nat m))))
         (float_of_int 1, float_of_int 0)).

(** The generator after the path of seed [m]: three draws per period. *)
Definition stream_end (p : Params) (m : nat) : rng :=
  advance (3 * Z.to_nat (N p)) (seed_state (Z.of_nat m)).

(** The generator after [simulate_forward_sum_ave] entered with [g]. *)
Definition after_batch (p : Params) (g : rng) : rng :=
  match Z.to_nat (M p) with
  | O => g
  | S m => stream_end p m
  end.

(** The estimate at one state: the running sum of the [M] path statistics
    of seeds [0..M-1], divided by [M]. *)
Definition estimate (x0 : float) (p : Params) : float :=
  (fsum (map (path_statistic x0 p) (range (M p))) / float_of_int (M p))%fl.

(** The stores and the generator updates of a schedule, one after the
    other. *)
Definition store_one (x_vals : list float) (v_vals : list float)
    (wi : nat * nat) : list float :=
  match x_vals !! wi.2 with
  | Some x => <[wi.2 := estimate x defaults]> v_vals
  | None => v_vals
  end.

Definition advance_one (gens : Workers) (wi : nat * nat) : Workers :=
  set_worker wi.1 (after_batch defaults (gens wi.1)) gens.
End LoopFunctions.

(** ** The path statistic as the text of the model states it *)

Section PathSpec.
Context {P : Platform} {G : Generator float}.

(** Products and sums run from the left, from 1.0 and 0.0. *)
Definition fprod (l : list float) : float := fold_left fmul l (float_of_int 1).

Section Shocks.
(** The initial state, the parameters, and the three shock sequences,
    indexed by the period [t >= 1]. *)
Variables (x0 : float) (p : Params) (η_c η_d ξ : nat -> float).

(** [x_0 = x0], [x_t = ρ x_{t-1} + σ ξ_t]. *)
Fixpoint x_of (t : nat) : float :=
  match t with
  | O => x0
  | S t' => (ρ p * x_of t' + σ p * ξ (S t'))%fl
  end.

(** [-γ μ_c + μ_d + (1-γ) x_{t-1} - γ σ_c η_c + σ_d η_d]: the state terms
    and the shock terms are each summed from the left and then added, which
    is the order in which the kernel rounds. *)
Definition exponent_of (t : nat) : float :=
  ((- γ p * μ_c p + μ_d p + (float_of_int 1 - γ p) * x_of (t - 1))
   + (- γ p * σ_c p * η_c t + σ_d p * η_d t))%fl.

(** [A_t = β exp(...)] *)
Definition A_of (t : nat) : float := (β p * np_exp (exponent_of t))%fl.

(** [Λ = Σ_{n=1..N} Π_{i=1..n} A_i] *)
Definition Λ_of_shocks : float :=
  fsum (map (fun n => fprod (map A_of (seq 1 n))) (seq 1 (Z.to_nat (N p)))).
End Shocks.

(** The shocks of period [t >= 1] of the path of seed [m] are consecutive
    variates of the stream of that seed: consumption, dividend, state. *)
Definition η_c_of (m t : nat) : float :=
  variate (seed_state (Z.of_nat m)) (3 * (t - 1)).
Definition η_d_of (m t : nat) : float :=
  variate (seed_state (Z.of_nat m)) (3 * (t - 1) + 1).
Definition ξ_of (m t : nat) : float :=
  variate (seed_state (Z.of_nat m)) (3 * (t - 1) + 2).

Definition Λ_spec (x0 : float) (p : Params) (m : nat) : float :=
  Λ_of_shocks x0 p (η_c_of m) (η_d_of m) (ξ_of m).

(** The arithmetic mean of a batch of statistics. *)
Definition arithmetic_mean (l : list float) : float :=
  (fsum l / float_of_int (Z.of_nat (length l)))%fl.
End PathSpec.

(** ** Instances of the platform and of the generator *)

(** *** IEEE 754 binary64 *)

(** Conversion of an integer: the nearest binary64, ties to even. *)
Definition b64_of_int (z : Z) : spec_float := binary_normalize 53 1024 z 0 false.

(** Infinite or not a number. *)
Definition is_nonfinite (x : spec_float) : bool :=
  match x with
  | S754_infinity _ | S754_nan => true
  | S754_zero _ | S754_finite _ _ _ => false
  end.

Definition nonfinite (x : spec_float) : Prop := is_nonfinite x = true.

(** binary64 with round to nearest even.  The exponential is the one of the
    C library, taken as [exp64]; [mean0] is the outcome of the mean of a
    zero-length array.  A fresh array is taken to hold NaNs. *)
Definition binary64 (exp64 : spec_float -> spec_float)
    (mean0 : result spec_float) : Platform := {|
  float := spec_float;
  fadd := SFadd 53 1024;
  fsub := SFsub 53 1024;
  fmul := SFmul 53 1024;
  fdiv := SFdiv 53 1024;
  fneg := SFopp;
  np_exp := exp64;
  float_of_int := b64_of_int;
  uninit := fun n => replicate n S754_nan;
  uninit_length := fun n => length_replicate n S754_nan;
  mean_of_empty := mean0;
|}.

(** An exponential for the examples that run: as the C library's on NaN, on
    the infinities and above the overflow threshold ([x > 710] gives
    [+inf]), and 1.0 elsewhere. *)
Definition exp_saturating (x : spec_float) : spec_float :=
  match x with
  | S754_nan => S754_nan
  | S754_infinity false => S754_infinity false
  | S754_infinity true => S754_zero false
  | _ => if SFltb (b64_of_int 710) x then S754_infinity false else b64_of_int 1
  end.

Definition binary64_run : Platform :=
  binary64 exp_saturating (Raise ZeroDivisionError).

(** *** Exact arithmetic *)

(** The kernels over the real numbers: what they compute up to rounding. *)
Definition reals : Platform := {|
  float := R;
  fadd := Rplus;
  fsub := Rminus;
  fmul := Rmult;
  fdiv := Rdiv;
  fneg := Ropp;
  np_exp := exp;
  float_of_int := IZR;
  uninit := fun n => replicate n 0%R;
  uninit_length := fun n => length_replicate n 0%R;
  mean_of_empty := Raise ZeroDivisionError;
|}.

(** *** A counter-based generator *)

(** Its state is the seed and the number of draws since seeding; variate
    [k] of stream [m] is [((m + k) mod 3) - 1]. *)
Definition counter_gen {P : Platform} : Generator float := {|
  rng := Z * nat;
  seed_state := fun m => (m, O);
  draw := fun g => (float_of_int ((g.1 + Z.of_nat g.2) mod 3 - 1), (g.1, S g.2));
|}.

(** ** The degenerate model: no shocks *)

Section Degenerate.
(** With all three volatilities at zero the state follows
    [x_t = ρ x_{t-1}] and every factor is a function of the period. *)
Variables (x0 : R) (p : @Params reals).

Fixpoint x_det (t : nat) : R :=
  match t with
  | O => x0
  | S t' => (ρ p * x_det t')%R
  end.

Definition A_det (t : nat) : R :=
  (β p * exp (- γ p * μ_c p + μ_d p + (1 - γ p) * x_det (t - 1)))%R.

Definition Rsum (l : list R) : R := fold_right Rplus 0%R l.
Definition Rprod (l : list R) : R := fold_right Rmult 1%R l.

(** [Σ_{n=1..N} Π_{t=1..n} β exp(-γ μ_c + μ_d + (1-γ) x_{t-1})] *)
Definition Λ_det : R :=
  Rsum (map (fun n => Rprod (map A_det (seq 1 n))) (seq 1 (Z.to_nat (N p)))).
End Degenerate.

(** ** Inputs of the examples *)

(** [simulate_forward_sum_ave(x0, N=n, M=m)]: the defaults of the signature
    with the horizon and the number of paths given by the caller. *)
Definition defaults_with {P : Platform} (n m : Z) : Params := {|
  β := β defaults; γ := γ defaults; ρ := ρ defaults; σ := σ defaults;
  μ_d := μ_d defaults; σ_d := σ_d defaults; μ_c := μ_c defaults;
  σ_c := σ_c defaults; N := n; M := m;
|}.

(** Every worker's generator as a program finds it that seeded it with 7
    and drew nothing since. *)
Definition gens_7 {P : Platform} : @Workers P counter_gen :=
  fun _ => (7%Z, O).

(** A grid of two states, and the schedule in which worker 0 completes
    grid point 1 before worker 1 completes grid point 0. *)
Definition grid_01 : list spec_float := [b64_of_int 0; b64_of_int 1].
Definition late_first : list (nat * nat) := [(0, 1); (1, 0)].

(** A model without shocks over the reals, with two periods and three
    paths. *)
Definition no_shocks : @Params reals :=
  @Build_Params reals (96 / 100)%R 2%R (9 / 10)%R 0%R
    (1 / 100)%R 0%R (5 / 100)%R 0%R 2 3.

(** A call with a discount factor that is not a number, and a call with
    [γ = 1] over the reals. *)
Definition nan_discount : @Params binary64_run :=
  @Build_Params binary64_run S754_nan (b64_of_int 2) (b64_of_int 0)
    (b64_of_int 0) (b64_of_int 0) (b64_of_int 0) (b64_of_int 0)
    (b64_of_int 0) 3 2.

Definition log_utility : @Params reals :=
  @Build_Params reals (96 / 100)%R 1%R (9 / 10)%R (5 / 100)%R
    (1 / 100)%R (1 / 100)%R (5 / 100)%R (1 / 100)%R 2 3.

(** ** Calls with keyword arguments *)

Section Keywords.
Context {P : Platform}.

(** [simulate_forward_sum_ave(x0, ..., N=n)]: the arguments [p] with the
    horizon given anew. *)
Definition with_horizon (p : Params) (n : Z) : Params := {|
  β := β p; γ := γ p; ρ := ρ p; σ := σ p; μ_d := μ_d p; σ_d := σ_d p;
  μ_c := μ_c p; σ_c := σ_c p; N := n; M := M p;
|}.

(** [simulate_forward_sum_ave(x0, ..., M=k)]: the arguments [p] with the
    number of paths given anew. *)
Definition with_paths (p : Params) (k : Z) : Params := {|
  β := β p; γ := γ p; ρ := ρ p; σ := σ p; μ_d := μ_d p; σ_d := σ_d p;
  μ_c := μ_c p; σ_c := σ_c p; N := N p; M := k;
|}.
End Keywords.

(** * Part II: the loops *)

(** ** The loops of one batch *)

Section Loops.
Context {P : Platform} {G : Generator float}.

Lemma advance_add j k g : advance (j + k) g = advance k (advance j g).
Proof. revert g; induction j as [|j IH]; intros g; simpl; [done | apply IH]. Qed.

Lemma length_factors p n x g : length (fst (factors p n x g)) = n.
Proof. revert x g; induction n as [|n IH]; intros x g; simpl; [done | by rewrite IH]. Qed.

Lemma draw_step_run p t A x g :
  t < length A ->
  draw_step p t (A, x) g =
    Ok ((<[t := factor p x (variate g 0) (variate g 1)]> A,
         next_state p x (variate g 2)), advance 3 g).
Proof.
  intros Ht. unfold draw_step, bind, randn, lift, ret, aset, variate; simpl.
  destruct (draw g) as [e1 g1] eqn:E1; simpl.
  destruct (draw g1) as [e2 g2] eqn:E2; simpl.
  unfold factor. rewrite decide_True by done.
  destruct (draw g2) as [e3 g3] eqn:E3; simpl. done.
Qed.

Lemma draw_loop_run p n : forall a A x g,
  a + n <= length A ->
  for_each (seq a n) (draw_step p) (A, x) g =
    Ok ((take a A ++ fst (factors p n x g) ++ drop (a + n) A,
         snd (factors p n x g)), advance (3 * n) g).
Proof.
  induction n as [|n IH]; intros a A x g Hlen.
  - simpl. unfold ret. rewrite Nat.add_0_r, take_drop. done.
  - cbn [seq for_each]. unfold bind at 1.
    rewrite draw_step_run by lia.
    rewrite IH by (rewrite length_insert; lia).
    cbn [factors fst snd].
    replace (3 * S n) with (3 + 3 * n) by lia. rewrite advance_add.
    do 3 f_equal.
    rewrite take_S_r with (x := factor p x (variate g 0) (variate g 1))
      by (apply list_lookup_insert_eq; lia).
    rewrite take_insert_ge by lia.
    rewrite drop_insert_lt by lia.
    replace (a + S n) with (S a + n) by lia.
    rewrite <- app_assoc. done.
Qed.

Lemma forward_loop_run A n : forall a s (g : rng),
  a + n <= length A ->
  for_each (seq a n) (forward_step A) s g =
    Ok (forward (take n (drop a A)) s, g).
Proof.
  induction n as [|n IH]; intros a [Ap L] g Hlen.
  - done.
  - cbn [seq for_each]. unfold bind at 1.
    destruct (lookup_lt_is_Some_2 A a) as [v Hv]; [lia|].
    unfold forward_step, bind, lift, aget, ret. rewrite Hv. simpl.
    change (for_each (seq (S a) n) (forward_step A) ((Ap * v)%fl, (L + Ap * v)%fl) g
            = Ok (forward (take (S n) (drop a A)) (Ap, L), g)).
    rewrite IH by lia.
    rewrite (drop_S A v a Hv). simpl. done.
Qed.

Lemma simulate_path_run x0 p m g :
  (0 <= N p)%Z ->
  simulate_path x0 p m g = Ok (path_statistic x0 p m, stream_end p m).
Proof.
  intros HN. unfold simulate_path, bind, np_random_seed, lift, np_empty, range.
  rewrite (proj2 (Z.ltb_ge _ _)) by done.
  rewrite draw_loop_run by (rewrite uninit_length; lia).
  rewrite forward_loop_run by (cbn [fst]; rewrite !length_app, length_factors; simpl; lia).
  cbn [fst snd take app]. unfold ret, path_statistic, stream_end.
  rewrite drop_0, (drop_ge (uninit _)) by (rewrite uninit_length; lia).
  rewrite app_nil_r, take_0, app_nil_l.
  rewrite take_ge by (rewrite length_factors; lia). done.
Qed.

Lemma batch_loop_run x0 p n : forall a Λ_vals g,
  (0 < n -> (0 <= N p)%Z) ->
  a + n <= length Λ_vals ->
  for_each (seq a n) (record_path x0 p) Λ_vals g =
    Ok (take a Λ_vals ++ map (path_statistic x0 p) (seq a n)
          ++ drop (a + n) Λ_vals,
        match n with O => g | S k => stream_end p (a + k) end).
Proof.
  induction n as [|n IH]; intros a L g HN Hlen.
  - simpl. unfold ret. rewrite Nat.add_0_r, take_drop. done.
  - cbn [seq for_each]. unfold bind at 1. unfold record_path at 1, bind.
    rewrite simulate_path_run by (apply HN; lia).
    unfold lift, aset. rewrite decide_True by lia.
    rewrite IH by (rewrite ?length_insert; intros; try apply HN; lia).
    f_equal. f_equal.
    + rewrite take_S_r with (x := path_statistic x0 p a)
        by (apply list_lookup_insert_eq; lia).
      rewrite take_insert_ge by lia.
      rewrite drop_insert_lt by lia.
      replace (a + S n) with (S a + n) by lia.
      rewrite <- app_assoc. done.
    + destruct n as [|k]; [by rewrite Nat.add_0_r | f_equal; lia].
Qed.

Lemma simulate_forward_sum_ave_run x0 p g :
  (0 <= M p)%Z ->
  ((0 < M p)%Z -> (0 <= N p)%Z) ->
  simulate_forward_sum_ave x0 p g =
    lift (mean (map (path_statistic x0 p) (range (M p)))) (after_batch p g).
Proof.
  intros HM HN. unfold simulate_forward_sum_ave, bind at 1.
  unfold lift at 1, np_empty. rewrite (proj2 (Z.ltb_ge _ _)) by done.
  unfold bind, range.
  rewrite batch_loop_run by (rewrite ?uninit_length; intros; try apply HN; lia).
  cbn [take app]. rewrite drop_ge by (rewrite uninit_length; lia).
  rewrite app_nil_r. unfold after_batch.
  destruct (Z.to_nat (M p)); done.
Qed.

Lemma length_range n : length (range n) = Z.to_nat n.
Proof. unfold range. apply length_seq. Qed.

(** With at least one path the mean is the running sum over the count. *)
Lemma mean_batch (f : nat -> float) (n : Z) :
  (1 <= n)%Z ->
  mean (map f (range n)) = Ok (fsum (map f (range n)) / float_of_int n)%fl.
Proof.
  intros Hn. unfold mean.
  destruct (map f (range n)) as [|v l] eqn:E.
  - apply (f_equal length) in E. rewrite length_map, length_range in E.
    simpl in E. lia.
  - rewrite <- E, length_map, length_range, Z2Nat.id by lia. done.
Qed.
End Loops.

(** ** The grid loop *)

Section Grid.
Context {P : Platform} {G : Generator float}.

Lemma estimate_run x0 p g :
  (1 <= M p)%Z -> (0 <= N p)%Z ->
  simulate_forward_sum_ave x0 p g = Ok (estimate x0 p, after_batch p g).
Proof.
  intros HM HN. rewrite simulate_forward_sum_ave_run by (intros; lia).
  rewrite mean_batch by done. done.
Qed.

Lemma defaults_M : M defaults = 20000%Z.
Proof. reflexivity. Qed.

Lemma defaults_N : N defaults = 1000%Z.
Proof. reflexivity. Qed.

Lemma estimate_defaults_run x0 g :
  simulate_forward_sum_ave x0 defaults g
  = Ok (estimate x0 defaults, after_batch defaults g).
Proof. apply estimate_run; [rewrite defaults_M | rewrite defaults_N]; lia. Qed.

Lemma price_state_run x_vals w i x v_vals gens :
  x_vals !! i = Some x ->
  i < length v_vals ->
  price_state x_vals (w, i) v_vals gens
  = Ok (store_one x_vals v_vals (w, i), advance_one gens (w, i)).
Proof.
  intros Hx Hi. unfold price_state, bind, lift, aget, on_worker, aset.
  rewrite Hx, estimate_defaults_run, decide_True by done.
  unfold store_one, advance_one. cbn [fst snd]. rewrite Hx. done.
Qed.

Lemma length_store_one x_vals v_vals wi :
  length (store_one x_vals v_vals wi) = length v_vals.
Proof. unfold store_one. destruct (x_vals !! wi.2); [apply length_insert | done]. Qed.

Lemma length_stores x_vals sched : forall v_vals,
  length (fold_left (store_one x_vals) sched v_vals) = length v_vals.
Proof.
  induction sched as [|wi sched IH]; intros v; simpl; [done|].
  rewrite IH. apply length_store_one.
Qed.

Lemma grid_loop_run x_vals sched : forall v_vals gens,
  length v_vals = length x_vals ->
  Forall (fun wi => wi.2 < length x_vals) sched ->
  for_each sched (price_state x_vals) v_vals gens
  = Ok (fold_left (store_one x_vals) sched v_vals,
        fold_left advance_one sched gens).
Proof.
  induction sched as [|[w i] sched IH]; intros v gens Hlen Hin; [done|].
  inversion Hin as [|? ? Hi Hin']; subst. cbn [snd] in Hi.
  destruct (lookup_lt_is_Some_2 x_vals i Hi) as [x Hx].
  cbn [for_each]. unfold bind.
  rewrite (price_state_run _ _ _ x) by (done || lia).
  rewrite IH by (rewrite ?length_store_one; done). done.
Qed.

(** A slot that no later iteration writes keeps its content. *)
Lemma stores_other x_vals sched i : forall v_vals,
  i ∉ map snd sched ->
  fold_left (store_one x_vals) sched v_vals !! i = v_vals !! i.
Proof.
  induction sched as [|wi sched IH]; intros v Hi; simpl; [done|].
  simpl in Hi. apply not_elem_of_cons in Hi as [Hne Hi].
  rewrite IH by done. unfold store_one.
  destruct (x_vals !! wi.2); [|done]. by rewrite list_lookup_insert_ne.
Qed.

(** A slot that some iteration writes holds the estimate at its state. *)
Lemma stores_written x_vals sched i x : forall v_vals,
  i ∈ map snd sched ->
  x_vals !! i = Some x ->
  i < length v_vals ->
  fold_left (store_one x_vals) sched v_vals !! i = Some (estimate x defaults).
Proof.
  induction sched as [|wi sched IH]; intros v Hi Hx Hlen; simpl.
  - simpl in Hi. by apply elem_of_nil in Hi.
  - destruct (decide (i ∈ map snd sched)) as [Hin|Hout].
    + apply IH; [done..|]. by rewrite length_store_one.
    + simpl in Hi. apply elem_of_cons in Hi as [->|]; [|done].
      rewrite stores_other by done. unfold store_one.
      rewrite Hx. by apply list_lookup_insert_eq.
Qed.

Lemma schedule_in_range n sched :
  schedule_of n sched -> Forall (fun wi => wi.2 < n) sched.
Proof.
  intros Hp. apply Forall_forall. intros wi Hwi.
  assert (wi.2 ∈ seq 0 n) as Hs.
  { rewrite <- Hp. apply list_elem_of_fmap. eauto. }
  apply elem_of_seq in Hs. lia.
Qed.

Lemma schedule_covers n sched i :
  schedule_of n sched -> i < n -> i ∈ map snd sched.
Proof. intros Hp Hi. rewrite Hp. apply elem_of_seq. lia. Qed.

(** Whatever the order of completion and the content of the fresh array,
    a schedule of the whole range leaves the estimates in grid order. *)
Lemma stores_schedule x_vals sched v_vals :
  schedule_of (length x_vals) sched ->
  length v_vals = length x_vals ->
  fold_left (store_one x_vals) sched v_vals
  = map (fun x => estimate x defaults) x_vals.
Proof.
  intros Hp Hlen. apply list_eq. intros i.
  rewrite list_lookup_fmap.
  destruct (x_vals !! i) as [x|] eqn:Hx; simpl.
  - apply stores_written; [|done|].
    + apply (schedule_covers (length x_vals)); [done|]. by eapply lookup_lt_Some.
    + rewrite Hlen. by eapply lookup_lt_Some.
  - apply lookup_ge_None. rewrite length_stores, Hlen. by apply lookup_ge_None.
Qed.

Lemma lookup_estimates (x_vals : list float) i x p :
  x_vals !! i = Some x ->
  map (fun x => estimate x p) x_vals !! i = Some (estimate x p).
Proof. intros Hx. by rewrite list_lookup_fmap, Hx. Qed.

Lemma compute_prices_run sched x_vals gens :
  schedule_of (length x_vals) sched ->
  compute_prices_across_states sched x_vals gens
  = Ok (map (fun x => estimate x defaults) x_vals,
        fold_left advance_one sched gens).
Proof.
  intros Hp. unfold compute_prices_across_states, bind, lift, np_empty.
  rewrite (proj2 (Z.ltb_ge _ _)) by lia.
  rewrite Nat2Z.id.
  rewrite grid_loop_run;
    [| by rewrite uninit_length | by apply schedule_in_range].
  rewrite stores_schedule by (rewrite ?uninit_length; done). done.
Qed.
End Grid.

(** ** The closed form of the path statistic *)

Section ClosedForm.
Context {P : Platform} {G : Generator float}.

Lemma variate_advance g j k : variate (advance j g) k = variate g (j + k).
Proof. unfold variate. by rewrite advance_add. Qed.

Lemma factors_closed_form x0 p m n : forall t,
  factors p n (x_of x0 p (ξ_of m) t) (advance (3 * t) (seed_state (Z.of_nat m)))
  = (map (A_of x0 p (η_c_of m) (η_d_of m) (ξ_of m)) (seq (S t) n),
     x_of x0 p (ξ_of m) (t + n)).
Proof.
  induction n as [|n IH]; intros t.
  - simpl. by rewrite Nat.add_0_r.
  - cbn [factors seq map].
    rewrite !variate_advance, <- advance_add.
    replace (3 * t + 3) with (3 * S t) by lia.
    assert (next_state p (x_of x0 p (ξ_of m) t)
              (variate (seed_state (Z.of_nat m)) (3 * t + 2))
            = x_of x0 p (ξ_of m) (S t)) as ->.
    { cbn [x_of]. unfold next_state, ξ_of. do 3 f_equal. lia. }
    rewrite IH. cbn [fst snd]. f_equal; [|f_equal; lia].
    f_equal. unfold A_of, exponent_of, factor, η_c_of, η_d_of.
    replace (S t - 1) with t by lia.
    replace (3 * t + 0) with (3 * t) by lia. done.
Qed.

Lemma forward_cons a A (s : float * float) :
  forward (a :: A) s = forward A ((s.1 * a)%fl, (s.2 + s.1 * a)%fl).
Proof. done. Qed.

Lemma forward_closed_form A : forall A_prod Λ,
  forward A (A_prod, Λ)
  = (fold_left fmul A A_prod,
     fold_left fadd
       (map (fun n => fold_left fmul (take n A) A_prod) (seq 1 (length A))) Λ).
Proof.
  induction A as [|a A IH]; intros Ap L; [done|].
  rewrite forward_cons, IH. cbn [fst snd length seq map take fold_left].
  f_equal. f_equal.
  rewrite <- (fmap_S_seq 1), <- list_fmap_compose. done.
Qed.

Lemma factors_of_path x0 p m :
  (factors p (Z.to_nat (N p)) x0 (seed_state (Z.of_nat m))).1
  = map (A_of x0 p (η_c_of m) (η_d_of m) (ξ_of m)) (seq 1 (Z.to_nat (N p))).
Proof.
  pose proof (factors_closed_form x0 p m (Z.to_nat (N p)) 0) as E.
  change (x_of x0 p (ξ_of m) 0) with x0 in E.
  rewrite Nat.mul_0_r in E. cbn [advance] in E. by rewrite E.
Qed.

Lemma path_statistic_closed_form x0 p m : path_statistic x0 p m = Λ_spec x0 p m.
Proof.
  unfold path_statistic, Λ_spec, Λ_of_shocks, fsum.
  rewrite factors_of_path, forward_closed_form. cbn [fst snd].
  rewrite length_map, length_seq. f_equal.
  apply list_fmap_ext. intros i n Hn.
  apply lookup_seq in Hn as [-> Hi].
  rewrite <- fmap_take, take_seq. unfold fprod.
  by rewrite Nat.min_l by lia.
Qed.
End ClosedForm.

(** * Part III: properties of the estimator *)

Section PathProperties.
Context {P : Platform} {G : Generator float}.

(** C4.  Determinism of the path simulator: for fixed parameters, initial
    state [x0] and seed [m], two invocations have the same outcome, value
    and generator state alike, whatever state the generator was in when each
    of them was entered.  The path reseeds before its first draw. *)
Theorem C4_simulate_path_deterministic (x0 : float) (p : Params) (m : nat)
    (g1 g2 : rng) :
  simulate_path x0 p m g1 = simulate_path x0 p m g2.
Proof.
  unfold simulate_path. unfold bind at 1 3. unfold np_random_seed. done.
Qed.

(** C2.  The path simulator returns [Λ = Σ_{n=1..N} Π_{i=1..n} A_i], where
    [A_t = β exp(-γ μ_c + μ_d + (1-γ) x_{t-1} - γ σ_c η_c + σ_d η_d)] is
    computed from the state of the previous period, [x_0 = x0], and the state
    is updated afterwards as [x_t = ρ x_{t-1} + σ ξ_t]; the shocks of period
    [t] are variates [3(t-1)], [3(t-1)+1] and [3(t-1)+2] of the stream of
    seed [m]. *)
Theorem C2_path_statistic_forward_sum (x0 : float) (p : Params) (m : nat)
    (g : rng) :
  (0 <= N p)%Z ->
  let A := A_of x0 p (η_c_of m) (η_d_of m) (ξ_of m) in
  let x := x_of x0 p (ξ_of m) in
  (exists g',
     simulate_path x0 p m g
     = Ok (fsum (map (fun n => fprod (map A (seq 1 n)))
                   (seq 1 (Z.to_nat (N p)))), g'))
  /\ (forall t,
        A t = (β p * np_exp ((- γ p * μ_c p + μ_d p
                              + (float_of_int 1 - γ p) * x (t - 1)%nat)
                             + (- γ p * σ_c p * η_c_of m t
                                + σ_d p * η_d_of m t)))%fl)
  /\ x 0 = x0
  /\ (forall t, x (S t) = (ρ p * x t + σ p * ξ_of m (S t))%fl).
Proof.
  intros HN A x. split; [|done].
  exists (stream_end p m).
  rewrite simulate_path_run, path_statistic_closed_form by done. done.
Qed.

(** C6, as the code has it.  The value of a path is a function of
    [(x0, params, seed)] alone, and so is the state in which the call leaves
    the generator: the one reached by three draws per period after seeding
    with [m].  The state found at entry is overwritten. *)
Theorem C6_simulate_path_effect (x0 : float) (p : Params) (m : nat) (g : rng) :
  (0 <= N p)%Z ->
  simulate_path x0 p m g
  = Ok (Λ_spec x0 p m,
        advance (3 * Z.to_nat (N p)) (seed_state (Z.of_nat m))).
Proof.
  intros HN. rewrite simulate_path_run by done.
  by rewrite path_statistic_closed_form.
Qed.
End PathProperties.

Section GridProperties.
Context {P : Platform} {G : Generator float}.

Lemma arithmetic_mean_batch (f : nat -> float) (n : Z) :
  (0 <= n)%Z ->
  arithmetic_mean (map f (range n))
  = (fsum (map f (range n)) / float_of_int n)%fl.
Proof.
  intros Hn. unfold arithmetic_mean.
  by rewrite length_map, length_range, Z2Nat.id.
Qed.

Lemma estimate_arithmetic_mean x0 p :
  (0 <= M p)%Z ->
  estimate x0 p = arithmetic_mean (map (path_statistic x0 p) (range (M p))).
Proof. intros HM. by rewrite arithmetic_mean_batch. Qed.

Lemma estimate_mean_of_shocks x0 p :
  (0 <= M p)%Z ->
  estimate x0 p
  = arithmetic_mean
      (map (fun m => Λ_of_shocks x0 p (η_c_of m) (η_d_of m) (ξ_of m))
         (range (M p))).
Proof.
  intros HM. rewrite estimate_arithmetic_mean by done. f_equal.
  apply list_fmap_ext. intros ? m _. apply path_statistic_closed_form.
Qed.

(** C1.  Whatever the order in which the iterations of the parallel loop
    complete, and whichever worker runs each, the grid estimator returns an
    array of the length of the grid whose element [i] is the arithmetic mean
    of the [M] statistics that the path simulator returns for
    [x0 = x_vals[i]] and the seeds [0..M-1]. *)
Theorem C1_grid_estimator_means (sched : list (nat * nat))
    (x_vals : list float) (gens : Workers) :
  schedule_of (length x_vals) sched ->
  exists v_vals gens',
    compute_prices_across_states sched x_vals gens = Ok (v_vals, gens')
    /\ length v_vals = length x_vals
    /\ forall i x, x_vals !! i = Some x ->
       exists Λ_vals,
         Z.of_nat (length Λ_vals) = M defaults
         /\ (forall m Λ, Λ_vals !! m = Some Λ ->
             forall g, exists g', simulate_path x defaults m g = Ok (Λ, g'))
         /\ v_vals !! i = Some (arithmetic_mean Λ_vals).
Proof.
  intros Hs. eexists _, _. split; [by apply compute_prices_run|].
  split; [by rewrite length_map|].
  intros i x Hx.
  exists (map (path_statistic x defaults) (range (M defaults))).
  split; [|split].
  - rewrite length_map, length_range. apply Z2Nat.id. rewrite defaults_M. lia.
  - intros m Λ Hm g.
    apply list_lookup_fmap_Some in Hm as (m' & -> & Hm').
    apply lookup_seq in Hm' as [-> _].
    exists (stream_end defaults m). apply simulate_path_run.
    rewrite defaults_N. lia.
  - rewrite (lookup_estimates _ _ _ _ Hx).
    rewrite estimate_arithmetic_mean by (rewrite defaults_M; lia).
    reflexivity.
Qed.

(** C7.  On an empty grid the parallel loop has no iteration: the result is
    the empty array, no exception is raised, and no generator is reseeded or
    advanced. *)
Theorem C7_empty_grid (sched : list (nat * nat)) (gens : Workers) :
  schedule_of 0 sched ->
  compute_prices_across_states sched [] gens = Ok ([], gens).
Proof.
  intros Hs. unfold schedule_of in Hs. simpl in Hs.
  apply Permutation_nil_r in Hs. apply fmap_nil_inv in Hs. subst sched.
  assert (uninit 0 = []) as Hempty.
  { pose proof (uninit_length 0) as Hl.
    destruct (uninit 0); [done | discriminate]. }
  unfold compute_prices_across_states, bind, lift, np_empty.
  cbn [length]. change (Z.of_nat 0) with 0%Z.
  cbn [Z.ltb Z.compare]. change (Z.to_nat 0) with O.
  rewrite Hempty. reflexivity.
Qed.

(** C9.  The grid estimator takes the grid alone: each element of its
    result is what [simulate_forward_sum_ave] returns at that state with
    the default values of its signature, [β = 0.96], [γ = 2.0], [ρ = 0.9],
    [σ = 0.05], [μ_d = 0.01], [σ_d = 0.01], [μ_c = 0.05], [σ_c = 0.01],
    [N = 1000] and [M = 20000]. *)
Theorem C9_grid_uses_defaults (sched : list (nat * nat))
    (x_vals : list float) (gens : Workers) :
  schedule_of (length x_vals) sched ->
  exists v_vals gens',
    compute_prices_across_states sched x_vals gens = Ok (v_vals, gens')
    /\ forall i x, x_vals !! i = Some x ->
       exists v,
         v_vals !! i = Some v
         /\ forall g, exists g',
            simulate_forward_sum_ave x
              {| β := dec 96 100; γ := float_of_int 2; ρ := dec 9 10;
                 σ := dec 5 100; μ_d := dec 1 100; σ_d := dec 1 100;
                 μ_c := dec 5 100; σ_c := dec 1 100;
                 N := 1000; M := 20000 |} g
            = Ok (v, g').
Proof.
  intros Hs. eexists _, _. split; [by apply compute_prices_run|].
  intros i x Hx. exists (estimate x defaults). split.
  - by apply lookup_estimates.
  - intros g. exists (after_batch defaults g).
    apply (estimate_defaults_run x g).
Qed.

(** C10.  Every grid point uses the seeds [0..M-1], hence the same shocks:
    the element at a state [x] is the mean over [m] of the forward sum built
    from [x] and the shock sequences of seed [m], which do not depend on the
    grid point.  Two grid points with the same state get the same value. *)
Theorem C10_common_random_numbers (sched : list (nat * nat))
    (x_vals : list float) (gens : Workers) :
  schedule_of (length x_vals) sched ->
  exists v_vals gens',
    compute_prices_across_states sched x_vals gens = Ok (v_vals, gens')
    /\ (forall i x, x_vals !! i = Some x ->
        v_vals !! i
        = Some (arithmetic_mean
                  (map (fun m => Λ_of_shocks x defaults
                                   (η_c_of m) (η_d_of m) (ξ_of m))
                     (range (M defaults)))))
    /\ (forall i j x, x_vals !! i = Some x -> x_vals !! j = Some x ->
        v_vals !! i = v_vals !! j /\ is_Some (v_vals !! i)).
Proof.
  intros Hs. eexists _, _. split; [by apply compute_prices_run|].
  split.
  - intros i x Hx. rewrite (lookup_estimates _ _ _ _ Hx).
    rewrite estimate_mean_of_shocks by (rewrite defaults_M; lia).
    reflexivity.
  - intros i j x Hi Hj.
    rewrite (lookup_estimates _ _ _ _ Hi), (lookup_estimates _ _ _ _ Hj). eauto.
Qed.
End GridProperties.

(** ** Configurations outside the intended range *)

Section Configuration.
Context {P : Platform} {G : Generator float}.

Lemma path_statistic_no_period x0 p m :
  N p = 0%Z -> path_statistic x0 p m = float_of_int 0.
Proof. intros HN. unfold path_statistic. by rewrite HN. Qed.

Lemma fmap_const_seq {A} (f : nat -> A) (v : A) n : forall a,
  (forall m, f m = v) -> map f (seq a n) = replicate n v.
Proof.
  induction n as [|n IH]; intros a Hf; [done|].
  simpl. by rewrite Hf, IH.
Qed.

Lemma first_path_fails x0 p Λ_vals g :
  (0 < M p)%Z -> (N p < 0)%Z ->
  for_each (range (M p)) (record_path x0 p) Λ_vals g = Raise ValueError.
Proof.
  intros HM HN. unfold range.
  destruct (Z.to_nat (M p)) as [|k] eqn:E; [lia|].
  cbn [seq for_each].
  unfold bind, record_path, simulate_path, bind, np_random_seed, lift, np_empty.
  by rewrite (proj2 (Z.ltb_lt _ _)).
Qed.

(** C3, as the code has it.  [simulate_forward_sum_ave] checks nothing
    itself.  A negative [M] is refused by the allocation of [Λ_vals], before
    any path.  With [M = 0] no path is simulated and the outcome is that of
    the mean of a zero-length array.  With [M >= 1] and a negative [N] the
    first path fails in the allocation of [A_path].  With [M >= 1] and
    [N = 0] all [M] paths are run, each has statistic 0.0, the last seed
    installed is [M - 1], and the mean of the [M] zeros is returned. *)
Theorem C3_no_configuration_check (x0 : float) (p : Params) (g : rng) :
  simulate_forward_sum_ave x0 p g =
    if (M p <? 0)%Z then Raise ValueError
    else if (M p =? 0)%Z then lift mean_of_empty g
    else if (N p <? 0)%Z then Raise ValueError
    else if (N p =? 0)%Z then
      Ok ((fsum (replicate (Z.to_nat (M p)) (float_of_int 0))
           / float_of_int (M p))%fl,
          seed_state (M p - 1))
    else Ok (estimate x0 p, after_batch p g).
Proof.
  destruct (Z.ltb_spec (M p) 0) as [HM|HM].
  { unfold simulate_forward_sum_ave, bind, lift, np_empty.
    by rewrite (proj2 (Z.ltb_lt _ _)). }
  destruct (Z.eqb_spec (M p) 0) as [HM0|HM0].
  { rewrite simulate_forward_sum_ave_run by lia.
    unfold range, after_batch. by rewrite HM0. }
  destruct (Z.ltb_spec (N p) 0) as [HN|HN].
  { unfold simulate_forward_sum_ave. unfold bind at 1, lift at 1, np_empty.
    rewrite (proj2 (Z.ltb_ge _ _)) by done.
    unfold bind. by rewrite first_path_fails by lia. }
  rewrite estimate_run by lia.
  destruct (Z.eqb_spec (N p) 0) as [HN0|HN0]; [|done].
  f_equal. f_equal.
  - unfold estimate, range. f_equal. f_equal.
    apply fmap_const_seq. intros m. by apply path_statistic_no_period.
  - unfold after_batch, stream_end.
    destruct (Z.to_nat (M p)) as [|k] eqn:E; [lia|].
    rewrite HN0. simpl. f_equal. lia.
Qed.
End Configuration.

(** C3, the statement as given fails.  With [N = 0] and [M = 2] the call
    raises nothing: it returns 0.0, and the generator that was entered in
    state [(7, 0)] is left freshly seeded with 1, the seed of the second
    path. *)
Lemma C3_zero_horizon_returns_silently :
  simulate_forward_sum_ave (P := binary64_run) (G := counter_gen)
    (b64_of_int 0) (defaults_with 0 2) (7%Z, O)
  = Ok (S754_zero false, (1%Z, O)).
Proof. vm_compute. reflexivity. Qed.

(** C6, the statement as given fails.  A path with the default parameters
    and seed 0, entered with the generator in state [(7, 0)], leaves it in
    state [(0, 3000)]: reseeded with 0 and advanced by three draws for each
    of the 1000 periods. *)
Lemma C6_generator_left_modified :
  exists v,
    simulate_path (P := binary64_run) (G := counter_gen)
      (b64_of_int 0) defaults 0 (7%Z, O)
    = Ok (v, (0%Z, Z.to_nat 3000))
    /\ (0%Z, Z.to_nat 3000) <> (7%Z, O).
Proof.
  exists (path_statistic (P := binary64_run) (G := counter_gen)
            (b64_of_int 0) defaults 0).
  split; [|discriminate].
  rewrite simulate_path_run by (rewrite defaults_N; lia).
  assert (stream_end (P := binary64_run) (G := counter_gen) defaults 0
          = (0%Z, Z.to_nat 3000)) as -> by (vm_compute; reflexivity).
  reflexivity.
Qed.

(** ** The degenerate model *)

Section DegenerateShocks.
Local Existing Instance reals.
Context {G : Generator R}.

(** The operations of the platform are those of [R]. *)
Ltac real_ops :=
  change (@float reals) with R in *;
  change (@fadd reals) with Rplus in *;
  change (@fsub reals) with Rminus in *;
  change (@fmul reals) with Rmult in *;
  change (@fdiv reals) with Rdiv in *;
  change (@fneg reals) with Ropp in *;
  change (@np_exp reals) with exp in *;
  change (@float_of_int reals) with IZR in *.

Lemma fsum_Rsum (l : list R) : fsum l = Rsum l.
Proof.
  unfold fsum, Rsum. real_ops.
  apply fold_symmetric.
  - intros x y z. ring.
  - intros y. ring.
Qed.

Lemma fprod_Rprod (l : list R) : fprod l = Rprod l.
Proof.
  unfold fprod, Rprod. real_ops.
  apply fold_symmetric.
  - intros x y z. ring.
  - intros y. ring.
Qed.

Lemma x_of_det x0 p ξ t : σ p = 0%R -> x_of x0 p ξ t = x_det x0 p t.
Proof.
  intros Hσ. induction t as [|t IH]; [done|].
  cbn [x_of x_det]. rewrite IH, Hσ. real_ops. ring.
Qed.

Lemma A_of_det x0 p η_c η_d ξ t :
  σ p = 0%R -> σ_c p = 0%R -> σ_d p = 0%R ->
  A_of x0 p η_c η_d ξ t = A_det x0 p t.
Proof.
  intros Hσ Hc Hd. unfold A_of, exponent_of, A_det.
  rewrite x_of_det, Hc, Hd by done. real_ops.
  f_equal. f_equal. ring.
Qed.

Lemma Λ_of_shocks_det x0 p η_c η_d ξ :
  σ p = 0%R -> σ_c p = 0%R -> σ_d p = 0%R ->
  Λ_of_shocks x0 p η_c η_d ξ = Λ_det x0 p.
Proof.
  intros Hσ Hc Hd. unfold Λ_of_shocks, Λ_det.
  rewrite fsum_Rsum. f_equal.
  apply list_fmap_ext. intros _ n _.
  rewrite fprod_Rprod. f_equal.
  apply list_fmap_ext. intros _ t _. by apply A_of_det.
Qed.

Lemma Rsum_replicate n (v : R) : Rsum (replicate n v) = (INR n * v)%R.
Proof.
  induction n as [|n IH]; [simpl; ring|].
  cbn [replicate Rsum fold_right]. fold (Rsum (replicate n v)).
  rewrite IH, S_INR. ring.
Qed.

Lemma estimate_constant x0 p (v : float) :
  (1 <= M p)%Z ->
  (forall m, path_statistic x0 p m = v) ->
  estimate x0 p = v.
Proof.
  intros HM Hv. unfold estimate, range.
  rewrite (fmap_const_seq _ v) by done.
  rewrite fsum_Rsum, Rsum_replicate. real_ops.
  rewrite INR_IZR_INZ, Z2Nat.id by lia.
  field. apply not_0_IZR. lia.
Qed.

(** In exact arithmetic the grouping of the exponent does not matter: the
    factor is the formula of the model as it is written. *)
Lemma A_of_exact x0 p η_c η_d ξ t :
  A_of x0 p η_c η_d ξ t
  = (β p * exp (- γ p * μ_c p + μ_d p + (1 - γ p) * x_of x0 p ξ (t - 1)
                - γ p * σ_c p * η_c t + σ_d p * η_d t))%R.
Proof.
  unfold A_of, exponent_of. real_ops. f_equal. f_equal. ring.
Qed.

(** C5.  With [σ = σ_c = σ_d = 0], in exact arithmetic, every path from
    [x0] has the statistic
    [Σ_{n=1..N} Π_{t=1..n} β exp(-γ μ_c + μ_d + (1-γ) x_{t-1})] with
    [x_t = ρ x_{t-1}], whatever its seed, and the mean over the [M] paths
    that the estimator returns is this value. *)
Theorem C5_degenerate_shocks (x0 : R) (p : Params) (g : rng) :
  σ p = 0%R -> σ_c p = 0%R -> σ_d p = 0%R ->
  (0 <= N p)%Z -> (1 <= M p)%Z ->
  (forall m g0, exists g',
     simulate_path x0 p m g0 = Ok (Λ_det x0 p, g'))
  /\ (exists g', simulate_forward_sum_ave x0 p g = Ok (Λ_det x0 p, g')).
Proof.
  intros Hσ Hc Hd HN HM.
  assert (forall m, path_statistic x0 p m = Λ_det x0 p) as Hpath.
  { intros m. rewrite path_statistic_closed_form. by apply Λ_of_shocks_det. }
  split.
  - intros m g0. exists (stream_end p m).
    rewrite simulate_path_run by done. by rewrite Hpath.
  - exists (after_batch p g).
    rewrite estimate_run by done. by rewrite (estimate_constant x0 p _ HM Hpath).
Qed.
End DegenerateShocks.

(** ** Values that poison what they touch *)

Section Poison.
Context {P : Platform} {G : Generator float}.

(** A class of values that every arithmetic operation preserves: once an
    operand is in it, so is the result. *)
Variable bad : float -> Prop.
Hypothesis bad_mul_l : forall a b, bad a -> bad (a * b)%fl.
Hypothesis bad_mul_r : forall a b, bad b -> bad (a * b)%fl.
Hypothesis bad_add_l : forall a b, bad a -> bad (a + b)%fl.
Hypothesis bad_add_r : forall a b, bad b -> bad (a + b)%fl.
Hypothesis bad_div_l : forall a b, bad a -> bad (a / b)%fl.

Lemma forward_app A1 A2 (s : float * float) :
  forward (A1 ++ A2) s = forward A2 (forward A1 s).
Proof. apply fold_left_app. Qed.

Lemma forward_bad_product A : forall s : float * float,
  bad s.1 -> bad s.2 -> bad (forward A s).2.
Proof.
  induction A as [|a A IH]; intros s H1 H2; [done|].
  rewrite forward_cons. apply IH; cbn [fst snd]; auto.
Qed.

Lemma forward_bad_factor A1 a A2 (s : float * float) :
  bad a -> bad (forward (A1 ++ a :: A2) s).2.
Proof.
  intros Ha. rewrite forward_app, forward_cons.
  apply forward_bad_product; cbn [fst snd]; auto.
Qed.

Lemma fold_fadd_bad l : forall acc, bad acc -> bad (fold_left fadd l acc).
Proof.
  induction l as [|v l IH]; intros acc Hacc; [done|].
  simpl. apply IH. auto.
Qed.

Lemma fsum_bad_element l1 v l2 : bad v -> bad (fsum (l1 ++ v :: l2)).
Proof.
  intros Hv. unfold fsum. rewrite fold_left_app. simpl.
  apply fold_fadd_bad. auto.
Qed.

Lemma seq_split_at a n k :
  k < n -> seq a n = seq a k ++ (a + k) :: seq (S (a + k)) (n - S k).
Proof.
  intros Hk. replace n with (k + S (n - S k)) at 1 by lia.
  by rewrite seq_app.
Qed.

Lemma path_statistic_bad x0 p m t :
  1 <= t <= Z.to_nat (N p) ->
  bad (A_of x0 p (η_c_of m) (η_d_of m) (ξ_of m) t) ->
  bad (path_statistic x0 p m).
Proof.
  intros Ht Hbad. unfold path_statistic. rewrite factors_of_path.
  rewrite (seq_split_at 1 _ (t - 1)) by lia.
  rewrite map_app. cbn [map].
  replace (1 + (t - 1)) with t by lia.
  by apply forward_bad_factor.
Qed.

Lemma estimate_bad x0 p m :
  m < Z.to_nat (M p) ->
  bad (path_statistic x0 p m) ->
  bad (estimate x0 p).
Proof.
  intros Hm Hbad. unfold estimate, range.
  rewrite (seq_split_at 0 _ m) by lia.
  rewrite map_app. cbn [map]. apply bad_div_l.
  by apply fsum_bad_element.
Qed.
End Poison.

(** ** Overflow in binary64 *)

Section Overflow.
Variable exp64 : spec_float -> spec_float.
Variable mean0 : result spec_float.
Local Instance b64 : Platform := binary64 exp64 mean0.
Context {G : Generator spec_float}.

Lemma nonfinite_mul_l a b : nonfinite a -> nonfinite (SFmul 53 1024 a b).
Proof. unfold nonfinite. destruct a, b; try done; discriminate. Qed.

Lemma nonfinite_mul_r a b : nonfinite b -> nonfinite (SFmul 53 1024 a b).
Proof. unfold nonfinite. destruct a, b; try done; discriminate. Qed.

Lemma nonfinite_add_l a b : nonfinite a -> nonfinite (SFadd 53 1024 a b).
Proof.
  unfold nonfinite.
  destruct a as [| [] | |], b as [| [] | |]; try done; discriminate.
Qed.

Lemma nonfinite_add_r a b : nonfinite b -> nonfinite (SFadd 53 1024 a b).
Proof.
  unfold nonfinite.
  destruct a as [| [] | |], b as [| [] | |]; try done; discriminate.
Qed.

Lemma nonfinite_div_l a b : nonfinite a -> nonfinite (SFdiv 53 1024 a b).
Proof. unfold nonfinite. destruct a, b; try done; discriminate. Qed.

(** C8.  Overflow is neither trapped nor masked.  If in period [t] of the
    path of seed [m] from the state [x] of grid point [i] the exponential
    overflows, so that [np.exp] returns an infinity or a NaN, then no
    exception is raised and the infinite or NaN value reaches the caller:
    the statistic of that path is infinite or NaN, so is the mean of the
    batch of that grid point, and so is element [i] of the result. *)
Theorem C8_overflow_reaches_output (sched : list (nat * nat))
    (x_vals : list float) (gens : Workers) (i : nat) (x : float)
    (m t : nat) :
  schedule_of (length x_vals) sched ->
  x_vals !! i = Some x ->
  (Z.of_nat m < M defaults)%Z ->
  (1 <= Z.of_nat t <= N defaults)%Z ->
  nonfinite (exp64 (exponent_of x defaults (η_c_of m) (η_d_of m) (ξ_of m) t)) ->
  exists Λ v,
    (forall g, exists g', simulate_path x defaults m g = Ok (Λ, g'))
    /\ nonfinite Λ
    /\ (forall g, exists g', simulate_forward_sum_ave x defaults g = Ok (v, g'))
    /\ nonfinite v
    /\ exists v_vals gens',
         compute_prices_across_states sched x_vals gens = Ok (v_vals, gens')
         /\ v_vals !! i = Some v.
Proof.
  intros Hs Hx Hm Ht Hexp.
  assert (nonfinite (path_statistic x defaults m)) as HΛ.
  { apply (path_statistic_bad (P := b64) nonfinite nonfinite_mul_l nonfinite_mul_r
             nonfinite_add_l nonfinite_add_r _ _ _ t); [lia|].
    unfold A_of. by apply nonfinite_mul_r. }
  assert (nonfinite (estimate x defaults)) as Hv.
  { apply (estimate_bad (P := b64) nonfinite nonfinite_add_l nonfinite_add_r
             nonfinite_div_l _ _ m); [lia | done]. }
  exists (path_statistic x defaults m), (estimate x defaults).
  split; [|split; [done|split; [|split; [done|]]]].
  - intros g. exists (stream_end defaults m).
    apply simulate_path_run. rewrite defaults_N. lia.
  - intros g. exists (after_batch defaults g). apply estimate_defaults_run.
  - eexists _, _. split; [by apply compute_prices_run|].
    by apply lookup_estimates.
Qed.
End Overflow.

(** ** Runs of the kernels in binary64 *)

(** The literals of the signature are the doubles nearest to the decimal
    values: 0.96 is [0x1EB851EB851EB8 * 2^-53], and so on. *)
Example defaults_binary64 :
  β (defaults (P := binary64_run)) = S754_finite false 8646911284551352 (-53)
  /\ γ (defaults (P := binary64_run)) = S754_finite false 4503599627370496 (-51)
  /\ ρ (defaults (P := binary64_run)) = S754_finite false 8106479329266893 (-53)
  /\ σ (defaults (P := binary64_run)) = S754_finite false 7205759403792794 (-57)
  /\ μ_d (defaults (P := binary64_run)) = S754_finite false 5764607523034235 (-59)
  /\ μ_c (defaults (P := binary64_run)) = S754_finite false 7205759403792794 (-57).
Proof. vm_compute. repeat split. Qed.

(** Three periods and two paths from [x0 = 0], with an exponential that is
    constantly 1: both paths have [Λ = 0.96 + 0.96^2 + 0.96^3], and the
    generator is left nine draws after seed 1. *)
Example run_three_periods :
  simulate_forward_sum_ave (P := binary64_run) (G := counter_gen)
    (b64_of_int 0) (defaults_with 3 2) (7%Z, O)
  = Ok (S754_finite false 6229234889390794 (-51), (1%Z, 9)).
Proof. vm_compute. reflexivity. Qed.

(** From [x0 = -1000] the exponent is about 999.9 and the exponential
    overflows: the mean is [+inf], and nothing is raised. *)
Example run_overflow :
  simulate_forward_sum_ave (P := binary64_run) (G := counter_gen)
    (b64_of_int (-1000)) (defaults_with 3 2) (7%Z, O)
  = Ok (S754_infinity false, (1%Z, 9)).
Proof. vm_compute. reflexivity. Qed.

(** A negative number of paths, or of periods, is refused by [np.empty]. *)
Example run_negative_paths :
  simulate_forward_sum_ave (P := binary64_run) (G := counter_gen)
    (b64_of_int 0) (defaults_with 3 (-1)) (7%Z, O)
  = Raise ValueError.
Proof. vm_compute. reflexivity. Qed.

Example run_negative_periods :
  simulate_forward_sum_ave (P := binary64_run) (G := counter_gen)
    (b64_of_int 0) (defaults_with (-1) 2) (7%Z, O)
  = Raise ValueError.
Proof. vm_compute. reflexivity. Qed.

(** ** The properties at concrete inputs *)

(** C1 at a grid of two states whose second point completes first. *)
Lemma C1_witness :
  schedule_of (length grid_01) late_first
  /\ exists v_vals gens',
       compute_prices_across_states (P := binary64_run) (G := counter_gen)
         late_first grid_01 gens_7 = Ok (v_vals, gens')
       /\ length v_vals = length grid_01.
Proof.
  assert (schedule_of (length grid_01) late_first) as Hs by apply perm_swap.
  split; [exact Hs|].
  destruct (C1_grid_estimator_means (P := binary64_run) (G := counter_gen)
              late_first grid_01 gens_7 Hs)
    as (v_vals & gens' & Hrun & Hlen & _).
  exists v_vals, gens'. split; assumption.
Defined.

(** C2 at the default parameters, [x0 = 0] and seed 0. *)
Lemma C2_witness :
  (0 <= N (defaults (P := binary64_run)))%Z
  /\ exists g',
       simulate_path (P := binary64_run) (G := counter_gen)
         (b64_of_int 0) defaults 0 (7%Z, O)
       = Ok (Λ_spec (P := binary64_run) (G := counter_gen)
              (b64_of_int 0) defaults 0, g').
Proof.
  assert (0 <= N (defaults (P := binary64_run)))%Z as HN by discriminate.
  split; [exact HN|].
  exact (proj1 (C2_path_statistic_forward_sum (P := binary64_run)
                  (G := counter_gen) (b64_of_int 0) defaults 0 (7%Z, O) HN)).
Defined.

(** C5 at a model without shocks, [x0 = 1]. *)
Lemma C5_witness :
  σ no_shocks = 0%R /\ σ_c no_shocks = 0%R /\ σ_d no_shocks = 0%R
  /\ (0 <= N no_shocks)%Z /\ (1 <= M no_shocks)%Z
  /\ exists g',
       simulate_forward_sum_ave (P := reals) (G := counter_gen)
         1%R no_shocks (7%Z, O)
       = Ok (Λ_det 1%R no_shocks, g').
Proof.
  assert (0 <= N no_shocks)%Z as HN by discriminate.
  assert (1 <= M no_shocks)%Z as HM by discriminate.
  split; [reflexivity|]. split; [reflexivity|]. split; [reflexivity|].
  split; [exact HN|]. split; [exact HM|].
  exact (proj2 (C5_degenerate_shocks (G := counter_gen (P := reals))
                  1%R no_shocks (7%Z, O) eq_refl eq_refl eq_refl HN HM)).
Defined.

(** C6 at the default parameters, [x0 = 0] and seed 0. *)
Lemma C6_witness :
  (0 <= N (defaults (P := binary64_run)))%Z
  /\ simulate_path (P := binary64_run) (G := counter_gen)
        (b64_of_int 0) defaults 0 (7%Z, O)
      = Ok (Λ_spec (P := binary64_run) (G := counter_gen)
              (b64_of_int 0) defaults 0,
            advance (3 * Z.to_nat (N (defaults (P := binary64_run))))
              (seed_state 0)).
Proof.
  assert (0 <= N (defaults (P := binary64_run)))%Z as HN by discriminate.
  split; [exact HN|].
  exact (C6_simulate_path_effect (P := binary64_run) (G := counter_gen)
           (b64_of_int 0) defaults 0 (7%Z, O) HN).
Defined.

(** C7 at the empty schedule. *)
Lemma C7_witness :
  schedule_of 0 []
  /\ compute_prices_across_states (P := binary64_run) (G := counter_gen)
        [] [] gens_7 = Ok ([], gens_7).
Proof.
  assert (schedule_of 0 []) as Hs by apply perm_nil.
  split; [exact Hs|].
  exact (C7_empty_grid (P := binary64_run) (G := counter_gen) [] gens_7 Hs).
Defined.

(** C8 at the grid [[-1000.0]]: the exponent of the first period of the
    path of seed 0 is about 999.9. *)
Lemma C8_witness :
  schedule_of 1 [(0, 0)]
  /\ [b64_of_int (-1000)] !! 0 = Some (b64_of_int (-1000))
  /\ nonfinite
        (exp_saturating
           (exponent_of (P := binary64_run) (b64_of_int (-1000)) defaults
              (η_c_of (G := counter_gen) 0) (η_d_of (G := counter_gen) 0)
              (ξ_of (G := counter_gen) 0) 1))
  /\ exists v v_vals gens',
       compute_prices_across_states (P := binary64_run) (G := counter_gen)
         [(0, 0)] [b64_of_int (-1000)] gens_7 = Ok (v_vals, gens')
       /\ v_vals !! 0 = Some v /\ nonfinite v.
Proof.
  assert (schedule_of 1 [(0, 0)]) as Hs by apply Permutation_refl.
  assert (nonfinite
            (exp_saturating
               (exponent_of (P := binary64_run) (b64_of_int (-1000)) defaults
                  (η_c_of (G := counter_gen) 0) (η_d_of (G := counter_gen) 0)
                  (ξ_of (G := counter_gen) 0) 1))) as Hexp
    by (vm_compute; reflexivity).
  split; [exact Hs|]. split; [reflexivity|]. split; [exact Hexp|].
  destruct (C8_overflow_reaches_output exp_saturating (Raise ZeroDivisionError)
              (G := counter_gen (P := binary64_run))
              [(0, 0)] [b64_of_int (-1000)] gens_7 0 (b64_of_int (-1000)) 0 1
              Hs eq_refl eq_refl (conj (Z.le_refl 1) (Zle_bool_imp_le 1 1000 eq_refl)) Hexp)
    as (Λ & v & _ & _ & _ & Hv & v_vals & gens' & Hrun & Hi).
  exists v, v_vals, gens'.
  exact (conj Hrun (conj Hi Hv)).
Defined.

(** C9 at a grid of two states. *)
Lemma C9_witness :
  schedule_of (length grid_01) late_first
  /\ exists v_vals gens' v,
       compute_prices_across_states (P := binary64_run) (G := counter_gen)
         late_first grid_01 gens_7 = Ok (v_vals, gens')
       /\ v_vals !! 1 = Some v.
Proof.
  assert (schedule_of (length grid_01) late_first) as Hs by apply perm_swap.
  split; [exact Hs|].
  destruct (C9_grid_uses_defaults (P := binary64_run) (G := counter_gen)
              late_first grid_01 gens_7 Hs)
    as (v_vals & gens' & Hrun & Hval).
  destruct (Hval 1 (b64_of_int 1) eq_refl) as (v & Hv & _).
  exists v_vals, gens', v. split; assumption.
Defined.

(** C10 at a grid that holds the state 1.0 twice. *)
Lemma C10_witness :
  schedule_of (length [b64_of_int 1; b64_of_int 1]) late_first
  /\ exists v_vals gens',
       compute_prices_across_states (P := binary64_run) (G := counter_gen)
         late_first [b64_of_int 1; b64_of_int 1] gens_7 = Ok (v_vals, gens')
       /\ v_vals !! 0 = v_vals !! 1.
Proof.
  assert (schedule_of (length [b64_of_int 1; b64_of_int 1]) late_first) as Hs
    by apply perm_swap.
  split; [exact Hs|].
  destruct (C10_common_random_numbers (P := binary64_run) (G := counter_gen)
              late_first [b64_of_int 1; b64_of_int 1] gens_7 Hs)
    as (v_vals & gens' & Hrun & _ & Hsame).
  exists v_vals, gens'. split; [assumption|].
  exact (proj1 (Hsame 0 1 (b64_of_int 1) eq_refl eq_refl)).
Defined.

(** * Part IV: further properties of the kernels *)

(** ** Fresh arrays, longer horizons, larger batches *)

Section Nesting.
Context {P : Platform} {G : Generator float}.

(** X1.  No loop reads a cell of a fresh array before writing it: the [t]
    loop over an array of [N] cells, the [m] loop over an array of [M] cells
    and the parallel loop over an array of the length of the grid have the
    same outcome from any two initial contents of that array. *)
Theorem X1_fresh_arrays_overwritten (x0 : float) (p : Params)
    (A_path A_path' Λ_vals Λ_vals' : list float)
    (x_vals v_vals v_vals' : list float) (sched : list (nat * nat))
    (g : rng) (gens : Workers) :
  (0 <= N p)%Z ->
  length A_path = Z.to_nat (N p) -> length A_path' = Z.to_nat (N p) ->
  length Λ_vals = Z.to_nat (M p) -> length Λ_vals' = Z.to_nat (M p) ->
  length v_vals = length x_vals -> length v_vals' = length x_vals ->
  schedule_of (length x_vals) sched ->
  for_each (range (N p)) (draw_step p) (A_path, x0) g
  = for_each (range (N p)) (draw_step p) (A_path', x0) g
  /\ for_each (range (M p)) (record_path x0 p) Λ_vals g
     = for_each (range (M p)) (record_path x0 p) Λ_vals' g
  /\ for_each sched (price_state x_vals) v_vals gens
     = for_each sched (price_state x_vals) v_vals' gens.
Proof.
  intros HN HA HA' HL HL' Hv Hv' Hs. unfold range. split; [|split].
  - rewrite !draw_loop_run by lia.
    rewrite !take_0, !drop_ge by lia. done.
  - rewrite !batch_loop_run by (try done; lia).
    rewrite !take_0, !drop_ge by lia. done.
  - rewrite !grid_loop_run by (done || by apply schedule_in_range).
    by rewrite !stores_schedule.
Qed.

Lemma fsum_snoc (l : list float) (v : float) :
  fsum (l ++ [v]) = (fsum l + v)%fl.
Proof. unfold fsum. by rewrite fold_left_app. Qed.

Lemma Λ_of_shocks_horizon x0 p η_c η_d ξ n :
  (0 <= n)%Z ->
  Λ_of_shocks x0 (with_horizon p (n + 1)) η_c η_d ξ
  = (Λ_of_shocks x0 (with_horizon p n) η_c η_d ξ
     + fprod (map (A_of x0 p η_c η_d ξ) (seq 1 (S (Z.to_nat n)))))%fl.
Proof.
  intros Hn. unfold Λ_of_shocks. cbn [N with_horizon].
  replace (Z.to_nat (n + 1)) with (S (Z.to_nat n)) by lia.
  remember (fprod (map (A_of x0 p η_c η_d ξ) (seq 1 (S (Z.to_nat n))))) as T.
  rewrite seq_S, map_app. cbn [map]. rewrite fsum_snoc.
  subst T. reflexivity.
Qed.

(** X2.  One more period adds one term and changes no other: with the same
    seed, the statistic over [n + 1] periods is the statistic over [n]
    periods plus the product [A_1 ... A_{n+1}], bit for bit. *)
Theorem X2_horizon_extends (x0 : float) (p : Params) (m : nat) (n : Z)
    (g : rng) :
  (0 <= n)%Z ->
  exists Λ g1 g2,
    simulate_path x0 (with_horizon p n) m g = Ok (Λ, g1)
    /\ simulate_path x0 (with_horizon p (n + 1)) m g
       = Ok ((Λ + fprod (map (A_of x0 p (η_c_of m) (η_d_of m) (ξ_of m))
                           (seq 1 (S (Z.to_nat n)))))%fl, g2).
Proof.
  intros Hn. eexists _, _, _. split.
  - apply simulate_path_run. cbn [N with_horizon]. done.
  - rewrite simulate_path_run by (cbn [N with_horizon]; lia).
    rewrite !path_statistic_closed_form. unfold Λ_spec.
    by rewrite Λ_of_shocks_horizon.
Qed.

Lemma factors_with_paths p k n : forall x g,
  factors (with_paths p k) n x g = factors p n x g.
Proof.
  induction n as [|n IH]; intros x g; [done|].
  cbn [factors]. by rewrite IH.
Qed.

Lemma path_statistic_with_paths x0 p k m :
  path_statistic x0 (with_paths p k) m = path_statistic x0 p m.
Proof. unfold path_statistic. by rewrite factors_with_paths. Qed.

(** X3.  One more path reuses the others: the batch of [k + 1] paths is the
    batch of [k] paths followed by the path of seed [k], so its running sum
    is the running sum of the [k] paths plus that path's statistic. *)
Theorem X3_batch_extends (x0 : float) (p : Params) (k : Z) (g : rng) :
  (1 <= k)%Z -> (0 <= N p)%Z ->
  exists S Λ g1 g2 g3,
    simulate_forward_sum_ave x0 (with_paths p k) g
    = Ok ((S / float_of_int k)%fl, g1)
    /\ simulate_path x0 p (Z.to_nat k) g = Ok (Λ, g2)
    /\ simulate_forward_sum_ave x0 (with_paths p (k + 1)) g
       = Ok (((S + Λ) / float_of_int (k + 1))%fl, g3).
Proof.
  intros Hk HN.
  assert (map (path_statistic x0 (with_paths p k)) (range k)
          = map (path_statistic x0 p) (range k)) as Ek.
  { apply list_fmap_ext. intros ? m _. apply path_statistic_with_paths. }
  assert (map (path_statistic x0 (with_paths p (k + 1))) (range (k + 1))
          = map (path_statistic x0 p) (range k)
            ++ [path_statistic x0 p (Z.to_nat k)]) as Ek1.
  { unfold range. replace (Z.to_nat (k + 1)) with (S (Z.to_nat k)) by lia.
    rewrite seq_S, map_app. cbn [map Nat.add].
    rewrite path_statistic_with_paths. f_equal.
    apply list_fmap_ext. intros ? m _. apply path_statistic_with_paths. }
  exists (fsum (map (path_statistic x0 p) (range k))),
         (path_statistic x0 p (Z.to_nat k)),
         (after_batch (with_paths p k) g), (stream_end p (Z.to_nat k)),
         (after_batch (with_paths p (k + 1)) g).
  split; [|split].
  - rewrite estimate_run by (cbn [N M with_paths]; lia).
    unfold estimate. cbn [M with_paths]. by rewrite Ek.
  - by apply simulate_path_run.
  - rewrite estimate_run by (cbn [N M with_paths]; lia).
    unfold estimate. cbn [M with_paths]. by rewrite Ek1, fsum_snoc.
Qed.
End Nesting.

(** ** The grid call as a whole *)

Section GridEffects.
Context {P : Platform} {G : Generator float}.

Lemma after_batch_last p g :
  (1 <= M p)%Z -> after_batch p g = stream_end p (Z.to_nat (M p - 1)).
Proof.
  intros HM. unfold after_batch.
  destruct (Z.to_nat (M p)) as [|k] eqn:E; [lia|]. f_equal. lia.
Qed.

Lemma advance_all sched : forall (gens : Workers) w,
  fold_left advance_one sched gens w
  = if decide (w ∈ map fst sched)
    then stream_end defaults (Z.to_nat (M defaults - 1))
    else gens w.
Proof.
  induction sched as [|wi sched IH]; intros gens w.
  - cbn [fold_left map]. rewrite decide_False; [done|]. apply not_elem_of_nil.
  - cbn [fold_left map]. rewrite IH.
    destruct (decide (w ∈ map fst sched)) as [Hin|Hout].
    + rewrite decide_True; [done|]. apply elem_of_cons. by right.
    + unfold advance_one, set_worker.
      destruct (decide (w = wi.1)) as [->|Hne].
      * rewrite decide_True by (apply elem_of_cons; by left).
        apply after_batch_last. rewrite defaults_M. lia.
      * rewrite decide_False; [done|].
        intros Hin. apply elem_of_cons in Hin as [?|?]; done.
Qed.

(** X4.  The result of the grid call is reproducible: two executions on the
    same grid return the same array, whatever their schedules and whatever
    the states of the workers' generators when they start. *)
Theorem X4_grid_reproducible (sched sched' : list (nat * nat))
    (x_vals : list float) (gens gens' : Workers) :
  schedule_of (length x_vals) sched ->
  schedule_of (length x_vals) sched' ->
  exists v_vals gens1 gens2,
    compute_prices_across_states sched x_vals gens = Ok (v_vals, gens1)
    /\ compute_prices_across_states sched' x_vals gens' = Ok (v_vals, gens2).
Proof.
  intros Hs Hs'. eexists _, _, _. split; by apply compute_prices_run.
Qed.

(** X5.  What the grid call does to the generators: a worker that ran no
    iteration keeps the state it had, and every worker that ran one is left
    at the end of the stream of the last seed, [M - 1], whichever grid
    points it was given. *)
Theorem X5_generators_after_grid (sched : list (nat * nat))
    (x_vals : list float) (gens : Workers) :
  schedule_of (length x_vals) sched ->
  exists v_vals gens',
    compute_prices_across_states sched x_vals gens = Ok (v_vals, gens')
    /\ forall w,
       (w ∈ map fst sched ->
        gens' w = advance (3 * Z.to_nat (N defaults))
                    (seed_state (M defaults - 1)))
       /\ (w ∉ map fst sched -> gens' w = gens w).
Proof.
  intros Hs. eexists _, _. split; [by apply compute_prices_run|].
  intros w. rewrite advance_all. split; intros Hw.
  - rewrite decide_True by done. unfold stream_end.
    rewrite Z2Nat.id by (rewrite defaults_M; lia). reflexivity.
  - by rewrite decide_False.
Qed.
End GridEffects.

(** ** Parameters that are not numbers *)

Section NonFiniteParameter.
Variable exp64 : spec_float -> spec_float.
Variable mean0 : result spec_float.
Local Instance binary64_any : Platform := binary64 exp64 mean0.
Context {G : Generator float}.

(** X6.  A discount factor that is infinite or not a number is not
    refused: with at least one period and one path the call raises nothing
    and returns a value that is infinite or not a number. *)
Theorem X6_nonfinite_discount_not_refused (x0 : float) (p : Params)
    (g : rng) :
  (1 <= N p)%Z -> (1 <= M p)%Z ->
  nonfinite (β p) ->
  exists v g',
    simulate_forward_sum_ave x0 p g = Ok (v, g') /\ nonfinite v.
Proof.
  intros HN HM Hβ. exists (estimate x0 p), (after_batch p g).
  split; [apply estimate_run; lia|].
  apply (estimate_bad (P := binary64_any) nonfinite nonfinite_add_l
           nonfinite_add_r nonfinite_div_l _ _ 0); [lia|].
  apply (path_statistic_bad (P := binary64_any) nonfinite nonfinite_mul_l
           nonfinite_mul_r nonfinite_add_l nonfinite_add_r _ _ _ 1); [lia|].
  unfold A_of. by apply nonfinite_mul_l.
Qed.
End NonFiniteParameter.

(** ** The estimator in exact arithmetic *)

Section ExactEstimator.
Local Existing Instance reals.
Context {G : Generator R}.

Ltac exact_ops :=
  change (@float reals) with R in *;
  change (@fadd reals) with Rplus in *;
  change (@fsub reals) with Rminus in *;
  change (@fmul reals) with Rmult in *;
  change (@fdiv reals) with Rdiv in *;
  change (@fneg reals) with Ropp in *;
  change (@np_exp reals) with exp in *;
  change (@float_of_int reals) with IZR in *.

Lemma Rsum_cons (v : R) (l : list R) : Rsum (v :: l) = (v + Rsum l)%R.
Proof. done. Qed.

Lemma Rprod_cons (v : R) (l : list R) : Rprod (v :: l) = (v * Rprod l)%R.
Proof. done. Qed.

Lemma Rprod_pos (l : list R) : Forall (fun a => 0 < a)%R l -> (0 < Rprod l)%R.
Proof.
  induction 1 as [|a l Ha _ IH]; [unfold Rprod; simpl; lra|].
  rewrite Rprod_cons. by apply Rmult_lt_0_compat.
Qed.

Lemma Rsum_nonneg (l : list R) : Forall (fun a => 0 < a)%R l -> (0 <= Rsum l)%R.
Proof.
  induction 1 as [|a l Ha _ IH]; [unfold Rsum; simpl; lra|].
  rewrite Rsum_cons. lra.
Qed.

Lemma Rsum_pos (l : list R) :
  l <> [] -> Forall (fun a => 0 < a)%R l -> (0 < Rsum l)%R.
Proof.
  intros Hne Hall. destruct Hall as [|a l Ha Hl]; [done|].
  rewrite Rsum_cons. pose proof (Rsum_nonneg l Hl). lra.
Qed.

Lemma Rsum_bounds (l : list R) (a b : R) :
  Forall (fun v => a <= v <= b)%R l ->
  (INR (length l) * a <= Rsum l <= INR (length l) * b)%R.
Proof.
  induction 1 as [|v l Hv _ IH].
  - unfold Rsum. simpl. lra.
  - rewrite Rsum_cons. cbn [length]. rewrite S_INR. lra.
Qed.

Lemma fmap_seq_nonempty {A} (f : nat -> A) a n :
  0 < n -> map f (seq a n) <> [].
Proof. destruct n; [lia | discriminate]. Qed.

Lemma A_of_pos (x0 : float) (p : Params) η_c η_d ξ t :
  (0 < β p)%R -> (0 < A_of x0 p η_c η_d ξ t)%R.
Proof.
  intros Hβ. unfold A_of. exact_ops.
  apply Rmult_lt_0_compat; [done | apply exp_pos].
Qed.

Lemma path_statistic_pos (x0 : float) (p : Params) m :
  (0 < β p)%R -> (1 <= N p)%Z -> (0 < path_statistic x0 p m)%R.
Proof.
  intros Hβ HN. rewrite path_statistic_closed_form.
  unfold Λ_spec, Λ_of_shocks. rewrite fsum_Rsum.
  apply Rsum_pos; [apply fmap_seq_nonempty; lia|].
  apply Forall_fmap, Forall_forall. intros n _. simpl.
  rewrite fprod_Rprod. apply Rprod_pos.
  apply Forall_fmap, Forall_forall. intros t _. simpl. by apply A_of_pos.
Qed.

Lemma estimate_bounds (x0 : float) (p : Params) (a b : R) :
  (1 <= M p)%Z ->
  (forall m, m < Z.to_nat (M p) -> (a <= path_statistic x0 p m <= b)%R) ->
  (a <= estimate x0 p <= b)%R.
Proof.
  intros HM Hab. unfold estimate. rewrite fsum_Rsum. exact_ops.
  assert (Forall (fun v => a <= v <= b)%R
            (map (path_statistic x0 p) (range (M p)))) as Hall.
  { apply Forall_fmap, Forall_forall. intros m Hm. simpl.
    apply Hab. unfold range in Hm. apply elem_of_seq in Hm. lia. }
  apply Rsum_bounds in Hall.
  rewrite length_map, length_range, INR_IZR_INZ, Z2Nat.id in Hall by lia.
  assert (0 < IZR (M p))%R as Hpos by (apply IZR_lt; lia).
  assert (0 < / IZR (M p))%R as Hinv by (by apply Rinv_0_lt_compat).
  unfold Rdiv. split.
  - replace a with ((IZR (M p) * a) * / IZR (M p))%R by (field; lra).
    apply Rmult_le_compat_r; [by apply Rlt_le | exact (proj1 Hall)].
  - replace b with ((IZR (M p) * b) * / IZR (M p))%R by (field; lra).
    apply Rmult_le_compat_r; [by apply Rlt_le | exact (proj2 Hall)].
Qed.

(** X7.  In exact arithmetic, with a positive discount factor, at least one
    period and at least one path, the estimate is strictly positive. *)
Theorem X7_estimate_positive (x0 : float) (p : Params) (g : rng) :
  (0 < β p)%R -> (1 <= N p)%Z -> (1 <= M p)%Z ->
  exists (v : float) g',
    simulate_forward_sum_ave x0 p g = Ok (v, g') /\ (0 < v)%R.
Proof.
  intros Hβ HN HM. exists (estimate x0 p), (after_batch p g).
  split; [apply estimate_run; lia|].
  unfold estimate. rewrite fsum_Rsum. exact_ops.
  apply Rdiv_lt_0_compat; [|apply IZR_lt; lia].
  apply Rsum_pos; [apply fmap_seq_nonempty; lia|].
  apply Forall_fmap, Forall_forall. intros m _. simpl.
  by apply path_statistic_pos.
Qed.

(** X8.  In exact arithmetic the estimate is a mean: if the statistic of
    every path of the batch lies between [a] and [b], so does the value
    returned. *)
Theorem X8_estimate_between_paths (x0 : float) (p : Params) (g : rng)
    (a b : R) :
  (0 <= N p)%Z -> (1 <= M p)%Z ->
  (forall m g0 (Λ : float) g1,
     m < Z.to_nat (M p) ->
     simulate_path x0 p m g0 = Ok (Λ, g1) -> (a <= Λ <= b)%R) ->
  exists (v : float) g',
    simulate_forward_sum_ave x0 p g = Ok (v, g') /\ (a <= v <= b)%R.
Proof.
  intros HN HM Hab. exists (estimate x0 p), (after_batch p g).
  split; [apply estimate_run; lia|].
  apply estimate_bounds; [done|]. intros m Hm.
  apply (Hab m g _ (stream_end p m) Hm). by apply simulate_path_run.
Qed.

Lemma A_of_log_utility (x0 x0' : float) (p : Params) η_c η_d ξ t :
  γ p = 1%R ->
  A_of x0 p η_c η_d ξ t = A_of x0' p η_c η_d ξ t.
Proof.
  intros Hγ. unfold A_of, exponent_of. rewrite Hγ. exact_ops.
  f_equal. f_equal. ring.
Qed.

(** X9.  In exact arithmetic, with [γ = 1] the factor no longer depends on
    the state: the estimate is the same from every initial state. *)
Theorem X9_log_utility_flat (x0 x0' : float) (p : Params) (g g' : rng) :
  γ p = 1%R -> (0 <= N p)%Z -> (1 <= M p)%Z ->
  exists (v : float) g1 g2,
    simulate_forward_sum_ave x0 p g = Ok (v, g1)
    /\ simulate_forward_sum_ave x0' p g' = Ok (v, g2).
Proof.
  intros Hγ HN HM.
  exists (estimate x0 p), (after_batch p g), (after_batch p g').
  split; [apply estimate_run; lia|].
  rewrite estimate_run by lia. do 2 f_equal.
  unfold estimate. do 2 f_equal.
  apply list_fmap_ext. intros ? m _.
  rewrite !path_statistic_closed_form. unfold Λ_spec, Λ_of_shocks.
  f_equal. apply list_fmap_ext. intros ? n _. f_equal.
  apply list_fmap_ext. intros ? t _. by apply A_of_log_utility.
Qed.

Lemma x_det_zero (p : Params) t : x_det 0%R p t = 0%R.
Proof.
  induction t as [|t IH]; [done|]. cbn [x_det]. rewrite IH. ring.
Qed.

Lemma Rprod_const (a : R) (l : list nat) :
  Rprod (map (fun _ => a) l) = (a ^ length l)%R.
Proof.
  induction l as [|t l IH]; [done|].
  cbn [map length]. rewrite Rprod_cons, IH. done.
Qed.

Lemma Rsum_app (l1 l2 : list R) : Rsum (l1 ++ l2) = (Rsum l1 + Rsum l2)%R.
Proof.
  induction l1 as [|v l1 IH]; [unfold Rsum; simpl; ring|].
  cbn [app]. rewrite !Rsum_cons, IH. ring.
Qed.

Lemma geometric_sum (a : R) n :
  ((1 - a) * Rsum (map (fun k => a ^ k) (seq 1 n)) = a * (1 - a ^ n))%R.
Proof.
  induction n as [|n IH]; [unfold Rsum; simpl; ring|].
  rewrite seq_S, map_app, Rsum_app. cbn [map Nat.add].
  rewrite Rsum_cons. unfold Rsum at 2. cbn [fold_right].
  rewrite Rmult_plus_distr_l, IH. simpl. ring.
Qed.

(** X10.  In exact arithmetic, without shocks and from [x0 = 0], the state
    stays at 0, every factor is [a = β exp(-γ μ_c + μ_d)] and the statistic
    of a path is the geometric sum [a + a^2 + ... + a^N]:
    [(1 - a) Λ = a (1 - a^N)]. *)
Theorem X10_geometric_sum_at_rest (p : Params) (m : nat) (g : rng) :
  σ p = 0%R -> σ_c p = 0%R -> σ_d p = 0%R -> (0 <= N p)%Z ->
  let a := (β p * exp (- γ p * μ_c p + μ_d p))%R in
  exists (Λ : float) g',
    simulate_path (P := reals) 0%R p m g = Ok (Λ, g')
    /\ ((1 - a) * Λ = a * (1 - a ^ Z.to_nat (N p)))%R.
Proof.
  intros Hσ Hc Hd HN a.
  exists (Λ_det 0%R p), (stream_end p m). split.
  - rewrite simulate_path_run by done.
    rewrite path_statistic_closed_form. unfold Λ_spec.
    by rewrite Λ_of_shocks_det.
  - unfold Λ_det.
    assert (forall n, Rprod (map (A_det 0%R p) (seq 1 n)) = (a ^ n)%R) as Hprod.
    { intros n.
      rewrite (list_fmap_ext (A_det 0%R p) (fun _ => a)).
      - by rewrite Rprod_const, length_seq.
      - intros _ t _. unfold A_det. rewrite x_det_zero. unfold a.
        f_equal. f_equal. ring. }
    rewrite (list_fmap_ext _ (fun k => (a ^ k)%R)) by (intros; apply Hprod).
    apply geometric_sum.
Qed.
End ExactEstimator.

(** ** The further properties at concrete inputs *)

(** A discount factor that is not a number comes back as the estimate. *)
Example run_nan_discount :
  simulate_forward_sum_ave (P := binary64_run) (G := counter_gen)
    (b64_of_int 0) nan_discount (7%Z, O)
  = Ok (S754_nan, (1%Z, 9)).
Proof. vm_compute. reflexivity. Qed.

(** X1 on the grid of two states, from an array of NaNs and from an array
    of zeros. *)
Lemma X1_witness :
  schedule_of (length grid_01) late_first
  /\ for_each late_first
       (price_state (P := binary64_run) (G := counter_gen) grid_01)
       [S754_nan; S754_nan] gens_7
     = for_each late_first
         (price_state (P := binary64_run) (G := counter_gen) grid_01)
         [b64_of_int 0; b64_of_int 0] gens_7.
Proof.
  assert (schedule_of (length grid_01) late_first) as Hs by apply perm_swap.
  split; [exact Hs|].
  exact (proj2 (proj2
    (X1_fresh_arrays_overwritten (P := binary64_run) (G := counter_gen)
       (b64_of_int 0) (defaults_with 2 2)
       [S754_nan; S754_nan] [b64_of_int 0; b64_of_int 0]
       [S754_nan; S754_nan] [b64_of_int 0; b64_of_int 0]
       grid_01 [S754_nan; S754_nan] [b64_of_int 0; b64_of_int 0]
       late_first (7%Z, O) gens_7
       (Zle_bool_imp_le 0 2 eq_refl) eq_refl eq_refl eq_refl eq_refl
       eq_refl eq_refl Hs))).
Defined.

(** X2 at the default parameters, from three to four periods. *)
Lemma X2_witness :
  (0 <= 3)%Z
  /\ exists Λ g1 g2,
       simulate_path (P := binary64_run) (G := counter_gen)
         (b64_of_int 0) (with_horizon defaults 3) 0 (7%Z, O) = Ok (Λ, g1)
       /\ exists Λ',
            simulate_path (P := binary64_run) (G := counter_gen)
              (b64_of_int 0) (with_horizon defaults (3 + 1)) 0 (7%Z, O)
            = Ok (Λ', g2).
Proof.
  assert (0 <= 3)%Z as Hn by discriminate.
  split; [exact Hn|].
  destruct (X2_horizon_extends (P := binary64_run) (G := counter_gen)
              (b64_of_int 0) defaults 0 3 (7%Z, O) Hn)
    as (Λ & g1 & g2 & H3 & H4).
  exists Λ, g1, g2. split; [exact H3|]. eexists. exact H4.
Defined.

(** X3 at three periods, from two to three paths. *)
Lemma X3_witness :
  (1 <= 2)%Z /\ (0 <= N (defaults_with (P := binary64_run) 3 0))%Z
  /\ exists S Λ g1 g2 g3,
       simulate_forward_sum_ave (P := binary64_run) (G := counter_gen)
         (b64_of_int 0) (with_paths (defaults_with 3 0) 2) (7%Z, O)
       = Ok ((S / float_of_int 2)%fl, g1)
       /\ simulate_path (P := binary64_run) (G := counter_gen)
            (b64_of_int 0) (defaults_with 3 0) (Z.to_nat 2) (7%Z, O)
          = Ok (Λ, g2)
       /\ simulate_forward_sum_ave (P := binary64_run) (G := counter_gen)
            (b64_of_int 0) (with_paths (defaults_with 3 0) (2 + 1)) (7%Z, O)
          = Ok (((S + Λ) / float_of_int (2 + 1))%fl, g3).
Proof.
  assert (1 <= 2)%Z as Hk by discriminate.
  assert (0 <= N (defaults_with (P := binary64_run) 3 0))%Z as HN
    by discriminate.
  split; [exact Hk|]. split; [exact HN|].
  exact (X3_batch_extends (P := binary64_run) (G := counter_gen)
           (b64_of_int 0) (defaults_with 3 0) 2 (7%Z, O) Hk HN).
Defined.

(** X4 on the grid of two states: the second point first on two workers,
    and both points in order on one worker whose generator starts
    elsewhere. *)
Lemma X4_witness :
  schedule_of (length grid_01) late_first
  /\ schedule_of (length grid_01) [(0, 0); (0, 1)]
  /\ exists v_vals gens1 gens2,
       compute_prices_across_states (P := binary64_run) (G := counter_gen)
         late_first grid_01 gens_7 = Ok (v_vals, gens1)
       /\ compute_prices_across_states (P := binary64_run) (G := counter_gen)
            [(0, 0); (0, 1)] grid_01 (fun _ => (3%Z, 5)) = Ok (v_vals, gens2).
Proof.
  assert (schedule_of (length grid_01) late_first) as Hs by apply perm_swap.
  assert (schedule_of (length grid_01) [(0, 0); (0, 1)]) as Hs'
    by apply Permutation_refl.
  split; [exact Hs|]. split; [exact Hs'|].
  exact (X4_grid_reproducible (P := binary64_run) (G := counter_gen)
           late_first [(0, 0); (0, 1)] grid_01 gens_7 (fun _ => (3%Z, 5))
           Hs Hs').
Defined.

(** X5 on the grid of two states: worker 2 ran nothing. *)
Lemma X5_witness :
  schedule_of (length grid_01) late_first
  /\ exists v_vals gens',
       compute_prices_across_states (P := binary64_run) (G := counter_gen)
         late_first grid_01 gens_7 = Ok (v_vals, gens')
       /\ gens' 2 = (7%Z, O).
Proof.
  assert (schedule_of (length grid_01) late_first) as Hs by apply perm_swap.
  split; [exact Hs|].
  destruct (X5_generators_after_grid (P := binary64_run) (G := counter_gen)
              late_first grid_01 gens_7 Hs)
    as (v_vals & gens' & Hrun & Hgens).
  exists v_vals, gens'. split; [exact Hrun|].
  apply (proj2 (Hgens 2)).
  intros Hin. apply elem_of_cons in Hin as [Hin|Hin]; [discriminate|].
  apply elem_of_cons in Hin as [Hin|Hin]; [discriminate|].
  by apply elem_of_nil in Hin.
Defined.

(** X6 at a discount factor that is not a number. *)
Lemma X6_witness :
  (1 <= N nan_discount)%Z /\ (1 <= M nan_discount)%Z
  /\ nonfinite (β nan_discount)
  /\ exists v g',
       simulate_forward_sum_ave (P := binary64_run) (G := counter_gen)
         (b64_of_int 0) nan_discount (7%Z, O) = Ok (v, g')
       /\ nonfinite v.
Proof.
  assert (1 <= N nan_discount)%Z as HN by discriminate.
  assert (1 <= M nan_discount)%Z as HM by discriminate.
  assert (nonfinite (β nan_discount)) as Hβ by reflexivity.
  split; [exact HN|]. split; [exact HM|]. split; [exact Hβ|].
  exact (X6_nonfinite_discount_not_refused exp_saturating
           (Raise ZeroDivisionError) (G := counter_gen (P := binary64_run))
           (b64_of_int 0) nan_discount (7%Z, O) HN HM Hβ).
Defined.

(** X7 at the model without shocks. *)
Lemma X7_witness :
  (0 < β no_shocks)%R /\ (1 <= N no_shocks)%Z /\ (1 <= M no_shocks)%Z
  /\ exists (v : R) g',
       simulate_forward_sum_ave (P := reals) (G := counter_gen)
         1%R no_shocks (7%Z, O) = Ok (v, g')
       /\ (0 < v)%R.
Proof.
  assert (0 < β no_shocks)%R as Hβ by (unfold no_shocks; simpl; lra).
  assert (1 <= N no_shocks)%Z as HN by discriminate.
  assert (1 <= M no_shocks)%Z as HM by discriminate.
  split; [exact Hβ|]. split; [exact HN|]. split; [exact HM|].
  exact (X7_estimate_positive (G := counter_gen (P := reals))
           1%R no_shocks (7%Z, O) Hβ HN HM).
Defined.

(** X8 at the model without shocks, where every path has the statistic
    [Λ_det]. *)
Lemma X8_witness :
  exists (v : R) g',
    simulate_forward_sum_ave (P := reals) (G := counter_gen)
      1%R no_shocks (7%Z, O) = Ok (v, g')
    /\ (Λ_det 1%R no_shocks <= v <= Λ_det 1%R no_shocks)%R.
Proof.
  assert (0 <= N no_shocks)%Z as HN by discriminate.
  assert (1 <= M no_shocks)%Z as HM by discriminate.
  apply (X8_estimate_between_paths (G := counter_gen (P := reals))
           1%R no_shocks (7%Z, O) _ _ HN HM).
  intros m g0 Λ g1 _ Hrun.
  rewrite simulate_path_run in Hrun by exact HN.
  injection Hrun as <- _.
  rewrite path_statistic_closed_form. unfold Λ_spec.
  rewrite Λ_of_shocks_det by reflexivity.
  split; apply Rle_refl.
Defined.

(** X9 at [γ = 1], from the states 1 and -1. *)
Lemma X9_witness :
  γ log_utility = 1%R /\ (0 <= N log_utility)%Z /\ (1 <= M log_utility)%Z
  /\ exists (v : R) g1 g2,
       simulate_forward_sum_ave (P := reals) (G := counter_gen)
         1%R log_utility (7%Z, O) = Ok (v, g1)
       /\ simulate_forward_sum_ave (P := reals) (G := counter_gen)
            (-1)%R log_utility (3%Z, 5) = Ok (v, g2).
Proof.
  assert (0 <= N log_utility)%Z as HN by discriminate.
  assert (1 <= M log_utility)%Z as HM by discriminate.
  split; [reflexivity|]. split; [exact HN|]. split; [exact HM|].
  exact (X9_log_utility_flat (G := counter_gen (P := reals))
           1%R (-1)%R log_utility (7%Z, O) (3%Z, 5) eq_refl HN HM).
Defined.

(** X10 at the model without shocks. *)
Lemma X10_witness :
  σ no_shocks = 0%R /\ σ_c no_shocks = 0%R /\ σ_d no_shocks = 0%R
  /\ (0 <= N no_shocks)%Z
  /\ exists (Λ : R) g',
       simulate_path (P := reals) (G := counter_gen)
         0%R no_shocks 0 (7%Z, O) = Ok (Λ, g').
Proof.
  assert (0 <= N no_shocks)%Z as HN by discriminate.
  split; [reflexivity|]. split; [reflexivity|]. split; [reflexivity|].
  split; [exact HN|].
  destruct (X10_geometric_sum_at_rest (G := counter_gen (P := reals))
              no_shocks 0 (7%Z, O) eq_refl eq_refl eq_refl HN)
    as (Λ & g' & Hrun & _).
  exists Λ, g'. exact Hrun.
Defined.
